(** * JD AI Assistant: conversation memory and context assembly

    A shallow embedding of [App.py]: the Store ([load_conversations],
    [save_conversations]), the Flat Logger ([log_flat_pair]), the Memory
    Assembler ([all_memory_pairs], [build_messages_from_memory]), the Title
    Deriver ([extract_title_from_history]), the Conversation Manager
    ([jd_reply_core], [load_conversation_by_title]) and the topic handler
    [on_select_topic] of the user interface.

    Python text is a sequence of Unicode code points; exceptions are a
    result type; the module-level [conversations] list and the two files
    under [BASE_DIR] form an explicit world that every operation threads. *)

From Stdlib Require Import NArith ZArith Ascii String.
From stdpp Require Import base list strings gmap.

Local Open Scope N_scope.
Set Warnings "-register-all".

(* ===================================================================== *)
(** ** Text *)
(* ===================================================================== *)

(** A Python [str]: code points, in order. *)
Definition char : Type := N.
Definition str : Type := list char.

(** An ASCII literal of the source as a [str]. *)
Definition lit (s : string) : str :=
  List.map N_of_ascii (list_ascii_of_string s).

(** [not s] on a [str]. *)
Definition is_empty (s : str) : bool :=
  match s with [] => true | _ :: _ => false end.

(** The characters [str.strip()] and [str.split()] treat as whitespace
    when called without argument: U+0009..U+000D, U+001C..U+0020, U+0085,
    U+00A0, U+1680, U+2000..U+200A, U+2028, U+2029, U+202F, U+205F,
    U+3000. *)
Definition isspace (c : char) : bool :=
  ((9 <=? c) && (c <=? 13)) || ((28 <=? c) && (c <=? 32))
  || (c =? 133) || (c =? 160) || (c =? 5760)
  || ((8192 <=? c) && (c <=? 8202))
  || (c =? 8232) || (c =? 8233) || (c =? 8239) || (c =? 8287)
  || (c =? 12288).

(** [s.lstrip()], [s.rstrip()], [s.strip()]. *)
Fixpoint lstrip (s : str) : str :=
  match s with
  | [] => []
  | c :: s' => if isspace c then lstrip s' else s
  end.

Definition rstrip (s : str) : str := reverse (lstrip (reverse s)).

Definition strip (s : str) : str := rstrip (lstrip s).

(** [s.split()]: the scanner keeps the word read so far in [word]; a
    whitespace character closes it, and runs of whitespace produce no
    empty word. *)
Definition flush (word : str) (rest : list str) : list str :=
  if is_empty word then rest else word :: rest.

Fixpoint split_from (word : str) (s : str) : list str :=
  match s with
  | [] => flush word []
  | c :: s' =>
      if isspace c then flush word (split_from [] s')
      else split_from (word ++ [c]) s'
  end.

Definition split (s : str) : list str := split_from [] s.

(** Empty or whitespace-only text. *)
Definition blank (s : str) : bool := forallb isspace s.

(** A word: not empty, no whitespace in it. *)
Definition is_word (w : str) : Prop :=
  w <> [] /\ forallb (fun c => negb (isspace c)) w = true.

(** [sep.join(parts)]. *)
Fixpoint join (sep : str) (parts : list str) : str :=
  match parts with
  | [] => []
  | [w] => w
  | w :: ws => w ++ sep ++ join sep ws
  end.

(** The ellipsis U+2026 the title ends with when it was cut. *)
Definition ellipsis : str := [8230].

Definition space : str := [32].
Definition newline : str := [10].

(* ===================================================================== *)
(** ** Data model *)
(* ===================================================================== *)

(** One turn [[user_text, assistant_text]]. *)
Definition turn : Type := str * str.

(** One conversation: the dict [{"id": .., "title": .., "turns": ..}]. *)
Record Conversation : Type := mkConv {
  conv_id : str;
  conv_title : str;
  conv_turns : list turn
}.

(* ===================================================================== *)
(** ** Title Deriver *)
(* ===================================================================== *)

Definition NEW_CHAT : str := Eval cbv in lit "New chat".

(** [extract_title_from_history] (App.py, lines 119-128). *)
Definition extract_title_from_history (history : list turn) : str :=
  match history with
  | [] => NEW_CHAT
  | first :: _ =>
      let first_user := strip (fst first) in
      if is_empty first_user then NEW_CHAT
      else
        let words := split first_user in
        let short := join space (take 10 words) in
        short ++ (if (10 <? length words)%nat then ellipsis else [])
  end.

(* ===================================================================== *)
(** ** Exceptions, files and the world *)
(* ===================================================================== *)

(** A raised exception; [exn_str] is what [str(e)] and an f-string show. *)
Record exn : Type := Exn { exn_str : str }.

Inductive result (A : Type) : Type :=
| Ok (a : A)
| Raise (e : exn).
Arguments Ok {A} a.
Arguments Raise {A} e.

(** What a path of the file system holds when it exists: text, or
    something [open] fails on (a directory, a file without permission).
    Files hold text as code points; their UTF-8 encoding on disk is not
    part of the model. *)
Inductive file : Type :=
| Data (text : str)
| Locked (e : exn).

(** The process state: the module-level list [conversations] and the
    file system. A path that is not in [disk] does not exist. *)
Record World : Type := mkWorld {
  conversations : list Conversation;
  disk : gmap string file
}.

Definition set_conversations (convs : list Conversation) (w : World) : World :=
  mkWorld convs (disk w).

Definition set_disk (d : gmap string file) (w : World) : World :=
  mkWorld (conversations w) d.

(** Computations that read and write the world and may raise. *)
Definition M (A : Type) : Type := World -> result A * World.

Definition ret {A} (a : A) : M A := fun w => (Ok a, w).

Definition bind {A B} (m : M A) (k : A -> M B) : M B :=
  fun w =>
    match m w with
    | (Ok a, w') => k a w'
    | (Raise e, w') => (Raise e, w')
    end.

(** [try: body except Exception as e: handler]. *)
Definition try_except {A} (body : M A) (handler : exn -> M A) : M A :=
  fun w =>
    match body w with
    | (Ok a, w') => (Ok a, w')
    | (Raise e, w') => handler e w'
    end.

Definition lift {A} (r : result A) : M A := fun w => (r, w).

Definition get_conversations : M (list Conversation) :=
  fun w => (Ok (conversations w), w).

Definition put_conversations (convs : list Conversation) : M unit :=
  fun w => (Ok tt, set_conversations convs w).

Declare Scope io_scope.
Delimit Scope io_scope with io.
Notation "x <- m ;; k" := (bind m (fun x => k))
  (at level 100, m at next level, right associativity) : io_scope.
Notation "m ;;; k" := (bind m (fun _ => k))
  (at level 100, right associativity) : io_scope.
Local Open Scope io_scope.

(** [os.path.exists(path)]. *)
Definition path_exists (path : string) : M bool :=
  fun w => (Ok (bool_decide (is_Some (disk w !! path))), w).

(** [with open(path, "r") as f: f.read()]. *)
Definition read_file (path : string) : M str :=
  fun w =>
    match disk w !! path with
    | Some (Data text) => (Ok text, w)
    | Some (Locked e) => (Raise e, w)
    | None => (Raise (Exn (lit "No such file or directory")), w)
    end.

(** [with open(path, "w") as f: f.write(text)]: creates or replaces. *)
Definition write_file (path : string) (text : str) : M unit :=
  fun w =>
    match disk w !! path with
    | Some (Locked e) => (Raise e, w)
    | _ => (Ok tt, set_disk (<[path := Data text]> (disk w)) w)
    end.

(** [with open(path, "a") as f: f.write(text)]: creates or extends. *)
Definition append_file (path : string) (text : str) : M unit :=
  fun w =>
    match disk w !! path with
    | Some (Locked e) => (Raise e, w)
    | Some (Data old) => (Ok tt, set_disk (<[path := Data (old ++ text)]> (disk w)) w)
    | None => (Ok tt, set_disk (<[path := Data text]> (disk w)) w)
    end.

(* ===================================================================== *)
(** ** JSON *)
(* ===================================================================== *)

(** The values [json.load] produces and [json.dump] accepts (numbers are
    the integers; nothing below looks inside a number). *)
Inductive json : Type :=
| JNull
| JBool (b : bool)
| JInt (n : Z)
| JStr (s : str)
| JList (items : list json)
| JDict (fields : list (str * json)).

(** The [json] module of the Python library, as used by the Store and the
    Flat Logger. *)
Class JsonLib : Type := {
  (** the text [json.dump(v, f, ensure_ascii=False, indent=2)] writes *)
  json_dump : json -> str;
  (** [json.dumps(v, ensure_ascii=False)] *)
  json_dumps : json -> str;
  (** [json.load(f)] on the text of [f] *)
  json_load : str -> result json
}.

Definition turn_json (t : turn) : json := JList [JStr (fst t); JStr (snd t)].

(** The dict of a conversation, keys in the order the code writes them. *)
Definition conv_json (c : Conversation) : json :=
  JDict [ (lit "id", JStr (conv_id c));
          (lit "title", JStr (conv_title c));
          (lit "turns", JList (turn_json <$> conv_turns c)) ].

Definition snapshot_json (convs : list Conversation) : json :=
  JList (conv_json <$> convs).

(** The record of the flat log. *)
Definition flat_record (user_text assistant_text : str) : json :=
  JDict [ (lit "instruction", JStr user_text);
          (lit "output", JStr assistant_text) ].

(** A reference implementation of the three entry points: the layout
    [json.dump] gives with [indent=2], the one-line layout of
    [json.dumps], and a reader of JSON text. It runs the Store on concrete
    files and shows that the contract assumed of the library can be met. *)
Module PyJson.

Definition hex_digit (d : N) : char :=
  if d <? 10 then 48 + d else 87 + d.

(** One character inside a JSON string, [ensure_ascii=False]. *)
Definition escape_char (c : char) : str :=
  if c =? 34 then [92; 34]
  else if c =? 92 then lit "\\"
  else if c =? 10 then lit "\n"
  else if c =? 13 then lit "\r"
  else if c =? 9 then lit "\t"
  else if c =? 8 then lit "\b"
  else if c =? 12 then lit "\f"
  else if c <? 32 then lit "\u00" ++ [hex_digit (c / 16); hex_digit (c mod 16)]
  else [c].

Definition quote (s : str) : str :=
  [34] ++ flat_map escape_char s ++ [34].

Fixpoint digits (fuel : nat) (n : N) (acc : str) : str :=
  match fuel with
  | O => acc
  | S fuel' =>
      let acc' := (48 + n mod 10) :: acc in
      if n <? 10 then acc' else digits fuel' (n / 10) acc'
  end.

Definition print_int (z : Z) : str :=
  let n := Z.abs_N z in
  (if (z <? 0)%Z then [45] else []) ++ digits (S (N.size_nat n)) n [].

Definition line_break (indent : option nat) (level : nat) : str :=
  match indent with
  | None => []
  | Some width => newline ++ replicate (width * level) 32
  end.

Definition item_separator (indent : option nat) (level : nat) : str :=
  match indent with
  | None => lit ", "
  | Some _ => lit "," ++ line_break indent level
  end.

Definition bracket (indent : option nat) (level : nat)
    (opening closing : char) (parts : list str) : str :=
  match parts with
  | [] => [opening; closing]
  | _ :: _ =>
      [opening] ++ line_break indent (S level)
      ++ join (item_separator indent (S level)) parts
      ++ line_break indent level ++ [closing]
  end.

Fixpoint encode (indent : option nat) (level : nat) (v : json) : str :=
  match v with
  | JNull => lit "null"
  | JBool true => lit "true"
  | JBool false => lit "false"
  | JInt z => print_int z
  | JStr s => quote s
  | JList items =>
      bracket indent level 91 93 (List.map (encode indent (S level)) items)
  | JDict fields =>
      bracket indent level 123 125
        (List.map (fun kv => quote (fst kv) ++ lit ": "
                             ++ encode indent (S level) (snd kv)) fields)
  end.

Definition is_ws (c : char) : bool :=
  (c =? 32) || (c =? 10) || (c =? 13) || (c =? 9).

Fixpoint skip_ws (s : str) : str :=
  match s with
  | c :: s' => if is_ws c then skip_ws s' else s
  | [] => []
  end.

Definition hex_value (c : char) : option N :=
  if (48 <=? c) && (c <=? 57) then Some (c - 48)
  else if (97 <=? c) && (c <=? 102) then Some (c - 87)
  else if (65 <=? c) && (c <=? 70) then Some (c - 55)
  else None.

(** The text after an opening quote: the string and what follows the
    closing quote. [esc] is set right after a backslash. *)
Fixpoint scan_string (esc : bool) (acc : str) (s : str)
  : option (str * str) :=
  match s with
  | [] => None
  | c :: s' =>
      if esc then
        if c =? 117 then
          match s' with
          | a :: b :: c' :: d :: rest =>
              match hex_value a, hex_value b, hex_value c', hex_value d with
              | Some x3, Some x2, Some x1, Some x0 =>
                  scan_string false
                    (acc ++ [((x3 * 16 + x2) * 16 + x1) * 16 + x0]) rest
              | _, _, _, _ => None
              end
          | _ => None
          end
        else
          let plain :=
            if c =? 110 then Some 10
            else if c =? 114 then Some 13
            else if c =? 116 then Some 9
            else if c =? 98 then Some 8
            else if c =? 102 then Some 12
            else if (c =? 34) || (c =? 92) || (c =? 47) then Some c
            else None in
          match plain with
          | Some x => scan_string false (acc ++ [x]) s'
          | None => None
          end
      else if c =? 34 then Some (acc, s')
      else if c =? 92 then scan_string true acc s'
      else if c <? 32 then None
      else scan_string false (acc ++ [c]) s'
  end.

Fixpoint scan_digits (acc : N) (s : str) : N * str :=
  match s with
  | c :: s' =>
      if (48 <=? c) && (c <=? 57) then scan_digits (acc * 10 + (c - 48)) s'
      else (acc, s)
  | [] => (acc, [])
  end.

Definition is_digit (c : char) : bool := (48 <=? c) && (c <=? 57).

Definition scan_int (s : str) : option (Z * str) :=
  match s with
  | c :: s' =>
      if c =? 45 then
        match s' with
        | d :: _ =>
            if is_digit d then
              let '(n, rest) := scan_digits 0 s' in Some ((- Z.of_N n)%Z, rest)
            else None
        | [] => None
        end
      else if is_digit c then
        let '(n, rest) := scan_digits 0 s in Some (Z.of_N n, rest)
      else None
  | [] => None
  end.

Fixpoint strip_prefix (p s : str) : option str :=
  match p, s with
  | [], _ => Some s
  | a :: p', b :: s' => if a =? b then strip_prefix p' s' else None
  | _ :: _, [] => None
  end.

(** One value, then the items of a list after its first value, then
    the fields of a dict; [fuel] bounds the nesting and the item count. *)
Fixpoint parse_value (fuel : nat) (s : str) : option (json * str) :=
  match fuel with
  | O => None
  | S fuel' =>
      match skip_ws s with
      | [] => None
      | c :: rest =>
          if c =? 34 then
            '(text, rest') ← scan_string false [] rest; Some (JStr text, rest')
          else if c =? 91 then
            match skip_ws rest with
            | d :: rest' =>
                if d =? 93 then Some (JList [], rest')
                else '(items, rest'') ← parse_items fuel' rest;
                     Some (JList items, rest'')
            | [] => None
            end
          else if c =? 123 then
            match skip_ws rest with
            | d :: rest' =>
                if d =? 125 then Some (JDict [], rest')
                else '(fields, rest'') ← parse_fields fuel' rest;
                     Some (JDict fields, rest'')
            | [] => None
            end
          else
            match strip_prefix (lit "null") (c :: rest),
                  strip_prefix (lit "true") (c :: rest),
                  strip_prefix (lit "false") (c :: rest) with
            | Some r, _, _ => Some (JNull, r)
            | _, Some r, _ => Some (JBool true, r)
            | _, _, Some r => Some (JBool false, r)
            | None, None, None =>
                '(z, r) ← scan_int (c :: rest); Some (JInt z, r)
            end
      end
  end
with parse_items (fuel : nat) (s : str) : option (list json * str) :=
  match fuel with
  | O => None
  | S fuel' =>
      '(v, rest) ← parse_value fuel' s;
      match skip_ws rest with
      | c :: rest' =>
          if c =? 44 then
            '(vs, rest'') ← parse_items fuel' rest'; Some (v :: vs, rest'')
          else if c =? 93 then Some ([v], rest')
          else None
      | [] => None
      end
  end
with parse_fields (fuel : nat) (s : str)
  : option (list (str * json) * str) :=
  match fuel with
  | O => None
  | S fuel' =>
      match skip_ws s with
      | q :: after_quote =>
          if q =? 34 then
            '(key, rest) ← scan_string false [] after_quote;
            match skip_ws rest with
            | colon :: rest0 =>
                if colon =? 58 then
                  '(v, rest1) ← parse_value fuel' rest0;
                  match skip_ws rest1 with
                  | c :: rest' =>
                      if c =? 44 then
                        '(kvs, rest'') ← parse_fields fuel' rest';
                        Some ((key, v) :: kvs, rest'')
                      else if c =? 125 then Some ([(key, v)], rest')
                      else None
                  | [] => None
                  end
                else None
            | [] => None
            end
          else None
      | [] => None
      end
  end.

Definition decode_error : exn := Exn (lit "Expecting value").

(** [json.load]: one value, then nothing but whitespace. *)
Definition decode (text : str) : result json :=
  match parse_value (S (length text)) text with
  | Some (v, rest) =>
      match skip_ws rest with
      | [] => Ok v
      | _ :: _ => Raise (Exn (lit "Extra data"))
      end
  | None => Raise decode_error
  end.

(** What may follow a number: nothing, or a character that is no digit. *)
Definition ends_number (rest : str) : bool :=
  match rest with
  | [] => true
  | c :: _ => negb (is_digit c)
  end.

(** The fuel that parsing [v] takes. *)
Fixpoint json_size (v : json) : nat :=
  match v with
  | JList items => S (list_sum (List.map (fun x => S (json_size x)) items))
  | JDict fields =>
      S (list_sum (List.map (fun kv => S (json_size (snd kv))) fields))
  | _ => 1
  end.

(** The characters a value can start with. *)
Definition value_start (c : char) : bool :=
  (c =? 110) || (c =? 116) || (c =? 102) || (c =? 34) || (c =? 91)
  || (c =? 123) || (c =? 45) || is_digit c.

(** [v] reads back as written: after whitespace, in front of anything
    that does not go on with a digit, whatever the layout. *)
Definition reads_back (v : json) : Prop :=
  forall indent level fuel ws rest,
    (json_size v <= fuel)%nat ->
    forallb is_ws ws = true ->
    ends_number rest = true ->
    parse_value fuel (ws ++ encode indent level v ++ rest) = Some (v, rest).

#[export] Instance lib : JsonLib := {
  json_dump := encode (Some 2%nat) 0;
  json_dumps := encode None 0;
  json_load := decode
}.

End PyJson.

(* ===================================================================== *)
(** ** Configuration *)
(* ===================================================================== *)

(** [~] stands for the home directory [os.path.expanduser] returns. *)
Definition MODEL_NAME : string := "llama3.2".
Definition BASE_DIR : string := "~/jd_data".
Definition CONV_PATH : string := BASE_DIR +:+ "/conversations.json".
Definition FLAT_PATH : string := BASE_DIR +:+ "/train.jsonl".
Definition AUDIO_DIR : string := "audio".

(* ===================================================================== *)
(** ** Store and Flat Logger *)
(* ===================================================================== *)

Section Store.
Context `{JsonLib}.

(** [load_conversations] (App.py, lines 31-42). The [try] body either
    returns the list it read ([Some]) or falls through ([None]); so does
    the handler, whose [print] leaves the world as it is. *)
Definition load_conversations (path : string) : M (list json) :=
  present <- path_exists path ;;
  if negb present then ret []
  else
    returned <- try_except
      (text <- read_file path ;;
       data <- lift (json_load text) ;;
       match data with
       | JList items => ret (Some items)
       | _ => ret None
       end)
      (fun e => ret None) ;;
    match returned with
    | Some items => ret items
    | None => ret []
    end.

(** [save_conversations] (App.py, lines 45-48). *)
Definition save_conversations (convs : list Conversation) (path : string)
  : M unit :=
  write_file path (json_dump (snapshot_json convs)).

(** [log_flat_pair] (App.py, lines 51-57). *)
Definition log_flat_pair (user_text assistant_text : str) (path : string)
  : M unit :=
  if is_empty user_text || is_empty assistant_text then ret tt
  else
    let rec := flat_record user_text assistant_text in
    append_file path (json_dumps rec ++ newline).

End Store.

(* ===================================================================== *)
(** ** Memory Assembler *)
(* ===================================================================== *)

(** The dict [{"instruction": u, "output": b}]. *)
Record mem_pair : Type := mkPair {
  instruction : str;
  output : str
}.

Inductive role : Type := system | user | assistant.

(** The dict [{"role": .., "content": ..}]. *)
Record message : Type := mkMsg {
  msg_role : role;
  msg_content : str
}.

(** [l[-n:]] for a positive [n]. *)
Definition last_n {A} (n : nat) (l : list A) : list A :=
  drop (length l - n) l.

(** [all_memory_pairs] (App.py, lines 65-71), on the value of the global
    [conversations]. *)
Definition all_memory_pairs (convs : list Conversation) : list mem_pair :=
  flat_map (fun conv => (fun t => mkPair (fst t) (snd t)) <$> conv_turns conv)
           convs.

Definition SYSTEM_PROMPT : str := Eval cbv in
  lit "You are JD, an AI Assistant created by Kunal Debnath Sir. "
  ++ lit "You remember previous chats and stay friendly and concise.".

Definition system_msg : message := mkMsg system SYSTEM_PROMPT.

Definition MEMORY_LABEL : str := Eval cbv in
  lit "Here is a summary of past conversation turns:" ++ newline ++ newline.

(** The f-string of one pair. *)
Definition render_pair (p : mem_pair) : str :=
  lit "User: " ++ instruction p ++ newline ++ lit "Assistant: " ++ output p.

Definition memory_msg (block : str) : message :=
  mkMsg system (MEMORY_LABEL ++ block).

(** [build_messages_from_memory] (App.py, lines 74-100). *)
Definition build_messages_from_memory (convs : list Conversation)
  : list message :=
  let mem_pairs := all_memory_pairs convs in
  let mem_texts := render_pair <$> last_n 50 mem_pairs in
  let block :=
    match mem_texts with
    | [] => []
    | _ :: _ => join (newline ++ newline) mem_texts
    end in
  if is_empty block then [system_msg]
  else [system_msg; memory_msg block].

(* ===================================================================== *)
(** ** Conversation Manager *)
(* ===================================================================== *)

(** The collaborators of one call: the model backend
    ([ollama.chat(..)["message"]["content"]]), the identifier
    [str(uuid.uuid4())] hands out, and the speech synthesis ([gTTS], the
    audio it yields). *)
Record Env : Type := mkEnv {
  ollama_chat : list message -> result str;
  uuid4 : str;
  gtts : str -> result str
}.

Definition AUDIO_FILE : string := AUDIO_DIR +:+ "/jd_reply.mp3".

(** [make_tts] (App.py, lines 105-116); the returned path is [""] when
    nothing was synthesised. *)
Definition make_tts (env : Env) (text : str) : M string :=
  if is_empty text then ret ""%string
  else
    try_except
      (audio <- lift (gtts env text) ;;
       write_file AUDIO_FILE audio ;;;
       ret AUDIO_FILE)
      (fun e => ret ""%string).

(** The messages of the current session followed by the new one
    (App.py, lines 161-165). *)
Definition session_messages (ui_history : list turn) (user_input : str)
  : list message :=
  flat_map (fun t => [mkMsg user (fst t); mkMsg assistant (snd t)]) ui_history
  ++ [mkMsg user user_input].

(** The loop of App.py, lines 185-190: the first conversation whose id is
    [cid] gets the new turns and title; [None] is [found = False]. *)
Fixpoint update_conversation (cid : str) (history : list turn)
    (convs : list Conversation) : option (list Conversation) :=
  match convs with
  | [] => None
  | conv :: rest =>
      if decide (conv_id conv = cid)
      then Some (mkConv (conv_id conv)
                        (extract_title_from_history history) history :: rest)
      else cons conv <$> update_conversation cid history rest
  end.

(** Lines 167-172: the reply of the model, or the error text that stands
    in for it when the call raises. *)
Definition ask_model (env : Env) (messages : list message) : str :=
  match ollama_chat env messages with
  | Ok text => text
  | Raise e => lit "Ollama error: " ++ exn_str e
  end.

(** Lines 176-195: the id the exchange is filed under and the list
    [conversations] after it was filed. *)
Definition record_update (env : Env) (active_id : option str)
    (ui_history : list turn) (convs : list Conversation)
  : str * list Conversation :=
  let create :=
    let new_id := uuid4 env in
    let title := extract_title_from_history ui_history in
    (new_id, convs ++ [mkConv new_id title ui_history]) in
  match active_id with
  | None => create
  | Some cid =>
      match update_conversation cid ui_history convs with
      | Some convs' => (cid, convs')
      | None => create
      end
  end.

(** What [jd_reply_core] returns:
    [(updated_history, audio_path, conversation_id, topic_titles)]. *)
Definition reply : Type :=
  (list turn * option string * option str * list str)%type.

Section Manager.
Context `{JsonLib}.
Variable env : Env.

(** [jd_reply_core] (App.py, lines 133-205); [active_id] is the
    argument [conv_id], [resolved_id] its value after lines 176-195. *)
Definition jd_reply_core (user_input : str) (speak : bool)
    (ui_history : list turn) (active_id : option str) : M reply :=
  let user_input := strip user_input in
  if is_empty user_input then
    convs <- get_conversations ;;
    ret (ui_history, None, active_id, conv_title <$> convs)
  else
    convs <- get_conversations ;;
    let messages :=
      build_messages_from_memory convs
      ++ session_messages ui_history user_input in
    let answer := ask_model env messages in
    let ui_history := ui_history ++ [(user_input, answer)] in
    let '(resolved_id, convs) := record_update env active_id ui_history convs in
    put_conversations convs ;;;
    convs <- get_conversations ;;
    save_conversations convs CONV_PATH ;;;
    log_flat_pair user_input answer FLAT_PATH ;;;
    audio <- (if speak then a <- make_tts env answer ;; ret (Some a)
              else ret None) ;;
    convs <- get_conversations ;;
    ret (ui_history, audio, Some resolved_id, conv_title <$> convs).

End Manager.

Definition reply_history (r : reply) : list turn := r.1.1.1.
Definition reply_audio (r : reply) : option string := r.1.1.2.
Definition reply_id (r : reply) : option str := r.1.2.
Definition reply_titles (r : reply) : list str := r.2.

(** The text the exchange gets as the assistant's side, and the session
    once the exchange is appended (lines 158-174 of [jd_reply_core]). *)
Definition reply_text (env : Env) (convs : list Conversation)
    (ui_history : list turn) (user_input : str) : str :=
  ask_model env (build_messages_from_memory convs
                 ++ session_messages ui_history (strip user_input)).

Definition session_after (env : Env) (convs : list Conversation)
    (ui_history : list turn) (user_input : str) : list turn :=
  ui_history ++ [(strip user_input, reply_text env convs ui_history user_input)].

(** [open(path, ..)] for writing does not fail. *)
Definition writable (path : string) (w : World) : Prop :=
  forall e, disk w !! path <> Some (Locked e).

(** The text of a file, [""] when there is none. *)
Definition file_text (path : string) (w : World) : str :=
  match disk w !! path with
  | Some (Data text) => text
  | _ => []
  end.

(** A computation that leaves the list [conversations] as it is. *)
Definition keeps_conversations {A} (m : M A) : Prop :=
  forall w, conversations (snd (m w)) = conversations w.

(** A computation that leaves the path [p] of the disk as it is. *)
Definition keeps_path {A} (p : string) (m : M A) : Prop :=
  forall w, disk (snd (m w)) !! p = disk w !! p.

(** The loop of App.py, lines 213-215: the first conversation with the
    title, or [[], None] after the loop. *)
Fixpoint find_title (title : str) (convs : list Conversation)
  : list turn * option str :=
  match convs with
  | [] => ([], None)
  | conv :: rest =>
      if decide (conv_title conv = title)
      then (conv_turns conv, Some (conv_id conv))
      else find_title title rest
  end.

(** [load_conversation_by_title] (App.py, lines 208-217), on the value of
    the global [conversations]. *)
Definition load_conversation_by_title (title : str)
    (convs : list Conversation) : list turn * option str :=
  if is_empty title then ([], None) else find_title title convs.

(** [on_select_topic] (App.py, lines 616-624). [full_turns] is a list on
    every path of [load_conversation_by_title], so the [is None] test
    never fires. *)
Definition on_select_topic (topic_title : str) (convs : list Conversation)
  : list turn * option str :=
  if is_empty topic_title then ([], None)
  else
    let '(full_turns, cid) := load_conversation_by_title topic_title convs in
    let last_five := last_n 5 full_turns in
    (last_five, cid).

(** The worlds a call passes through: the list updated, then the Store
    written, then the record appended to the log. *)
Section Stages.
Context `{JsonLib}.

Definition stored (convs : list Conversation) (w : World) : World :=
  set_disk (<[CONV_PATH := Data (json_dump (snapshot_json convs))]> (disk w))
           (set_conversations convs w).

Definition log_line (user_text assistant_text : str) : str :=
  json_dumps (flat_record user_text assistant_text) ++ newline.

Definition logged (user_text assistant_text : str) (w : World) : World :=
  if is_empty user_text || is_empty assistant_text then w
  else
    set_disk (<[FLAT_PATH := Data (file_text FLAT_PATH w
                                   ++ log_line user_text assistant_text)]>
                (disk w)) w.

End Stages.

(* ===================================================================== *)
(** ** Event handlers of the user interface *)
(* ===================================================================== *)

(** [gr.update(value=.., visible=..)] for the audio player. *)
Record audio_update : Type := mkAudio {
  audio_value : option string;
  audio_visible : bool
}.

(** [gr.update(choices=.., value=..)] for the topic radio; [choices] is
    [None] where the call does not pass it. *)
Record radio_update : Type := mkRadio {
  radio_choices : option (list str);
  radio_value : option str
}.

(** What a handler wired to
    [[chat, txt, audio_out, active_conv_id, topic_titles, topic_radio]]
    returns. *)
Record ui_outputs : Type := mkOutputs {
  out_chat : list turn;
  out_txt : str;
  out_audio : audio_update;
  out_conv_id : option str;
  out_titles : list str;
  out_radio : radio_update
}.

(** [bool(audio)]: a path that is neither [None] nor [""]. *)
Definition has_audio (audio : option string) : bool :=
  match audio with
  | Some (String _ _) => true
  | _ => false
  end.

(** [history or []]. *)
Definition or_empty (history : option (list turn)) : list turn :=
  default [] history.

Section Handlers.
Context `{JsonLib}.
Variable env : Env.

(** [on_send] (App.py, lines 600-611); [titles] is not read. *)
Definition on_send (message : str) (history : option (list turn))
    (speak : bool) (active_id : option str) (titles : list str)
  : M ui_outputs :=
  r <- jd_reply_core env message speak (or_empty history) active_id ;;
  let '(new_history, audio, new_conv_id, new_titles) := r in
  ret (mkOutputs new_history [] (mkAudio audio (has_audio audio))
         new_conv_id new_titles
         (mkRadio (Some new_titles) (last new_titles))).

End Handlers.

(** [on_new_chat] (App.py, lines 613-614). *)
Definition on_new_chat (active_id : option str) (titles : list str)
  : ui_outputs :=
  mkOutputs [] [] (mkAudio None false) None titles (mkRadio None None).

(** [edit_last_prompt] (App.py, lines 626-630). *)
Definition edit_last_prompt (history : option (list turn)) : str :=
  match last (or_empty history) with
  | None => []
  | Some last_turn => fst last_turn
  end.

(** [copy_last_answer] (App.py, lines 632-636). *)
Definition copy_last_answer (history : option (list turn)) : str :=
  match last (or_empty history) with
  | None => []
  | Some last_turn => snd last_turn
  end.

(* ===================================================================== *)
(** ** Fixtures *)
(* ===================================================================== *)

(** Sixty stored pairs, spread over three conversations. *)
Definition numbered_turns (first count : nat) : list turn :=
  (fun i => ([N.of_nat i], [N.of_nat i; 33])) <$> seq first count.

Definition sixty_pairs : list Conversation :=
  [ mkConv (lit "a") (lit "A") (numbered_turns 0 25);
    mkConv (lit "b") (lit "B") (numbered_turns 25 5);
    mkConv (lit "c") (lit "C") (numbered_turns 30 30) ].

(** Two topics, with quotes, a backslash, a line break and characters
    outside ASCII in their text. *)
Definition two_topics : list Conversation :=
  [ mkConv (lit "3f2a") (lit "Hi there")
      [(lit "Hi there", lit "Hello!"); (lit "more", [34; 92; 10; 233; 8230])];
    mkConv (lit "77b0") (lit "New chat") [] ].

(** A backend that answers, one that is unreachable, and worlds to run
    them in. *)
Definition greeter : Env :=
  mkEnv (fun _ => Ok (lit "Hello!")) (lit "id-1")
        (fun _ => Raise (Exn (lit "no audio device"))).

Definition offline : Env :=
  mkEnv (fun _ => Raise (Exn (lit "connection refused"))) (lit "id-2")
        (fun _ => Ok [73; 68; 51]).

Definition empty_world : World := mkWorld [] ∅.

Definition world_two : World := mkWorld two_topics ∅.

Definition permission_denied : exn := Exn (lit "Permission denied").

Definition log_locked : World :=
  mkWorld [] {[ FLAT_PATH := Locked permission_denied ]}.

(** A second call of the same session: the model answers again, and
    [uuid4] would hand out another id. *)
Definition greeter_again : Env :=
  mkEnv (fun _ => Ok (lit "Again!")) (lit "id-9")
        (fun _ => Ok [73; 68; 51]).

(** A Store file that cannot be opened. *)
Definition store_locked : World :=
  mkWorld two_topics {[ CONV_PATH := Locked permission_denied ]}.

(** A file the application has nothing to do with. *)
Definition notes_world : World :=
  mkWorld two_topics {[ "notes.txt"%string := Data (lit "keep") ]}.

(** A stored conversation whose title is the empty string. *)
Definition untitled : Conversation :=
  mkConv (lit "1") [] [(lit "a", lit "b")].

(** A conversation of seven turns. *)
Definition long_topic : Conversation :=
  mkConv (lit "9c1d") (lit "0") (numbered_turns 48 7).

(* ===================================================================== *)
(** * Properties *)
(* ===================================================================== *)

(** ** Text *)

Section Text.
Implicit Types (s t word : str) (c : char).

Lemma is_empty_nil s : is_empty s = true <-> s = [].
Proof. destruct s; simpl; split; congruence. Qed.

Lemma blank_app s t : blank (s ++ t) = blank s && blank t.
Proof. apply forallb_app. Qed.

Lemma blank_reverse s : blank (reverse s) = blank s.
Proof.
  induction s as [|c s IH]; [reflexivity|].
  rewrite reverse_cons, blank_app, IH. simpl.
  rewrite andb_true_r. apply andb_comm.
Qed.

Lemma lstrip_blank s : blank s = true -> lstrip s = [].
Proof.
  induction s as [|c s IH]; simpl; [reflexivity|].
  destruct (isspace c); simpl; [exact IH | discriminate].
Qed.

(** What [lstrip] keeps starts with a character that is no whitespace. *)
Lemma lstrip_head s :
  blank s = false ->
  exists c s', lstrip s = c :: s' /\ isspace c = false.
Proof.
  induction s as [|c s IH]; simpl; [discriminate|].
  destruct (isspace c) eqn:Hc; simpl.
  - exact IH.
  - intros _. exists c, s. rewrite Hc. auto.
Qed.

(** [lstrip] removes a blank prefix and nothing else. *)
Lemma lstrip_split s : exists t, blank t = true /\ s = t ++ lstrip s.
Proof.
  induction s as [|c s (t & Ht & IH)]; simpl.
  - exists []. auto.
  - destruct (isspace c) eqn:Hc.
    + exists (c :: t). simpl. rewrite Hc, Ht. split; [reflexivity|].
      f_equal. exact IH.
    + exists []. auto.
Qed.

Lemma rstrip_split s : exists t, blank t = true /\ s = rstrip s ++ t.
Proof.
  destruct (lstrip_split (reverse s)) as (t & Ht & Hs).
  exists (reverse t). split.
  - rewrite blank_reverse. exact Ht.
  - unfold rstrip. rewrite <- reverse_app, <- Hs.
    symmetry. apply reverse_involutive.
Qed.

Lemma blank_lstrip s : blank (lstrip s) = blank s.
Proof.
  induction s as [|c s IH]; simpl; [reflexivity|].
  destruct (isspace c) eqn:Hc; simpl; [exact IH|].
  rewrite Hc. reflexivity.
Qed.

Lemma blank_rstrip s : blank (rstrip s) = blank s.
Proof.
  unfold rstrip. rewrite blank_reverse, blank_lstrip. apply blank_reverse.
Qed.

Lemma blank_strip s : blank (strip s) = blank s.
Proof. unfold strip. rewrite blank_rstrip. apply blank_lstrip. Qed.

(** [not s.strip()] is the test for blank text. *)
Lemma is_empty_strip s : is_empty (strip s) = blank s.
Proof.
  destruct (blank s) eqn:Hb.
  - unfold strip, rstrip.
    rewrite (lstrip_blank s Hb). reflexivity.
  - rewrite <- blank_strip in Hb.
    destruct (strip s); [discriminate | reflexivity].
Qed.

Lemma strip_nil_iff s : strip s = [] <-> blank s = true.
Proof. rewrite <- is_empty_strip. symmetry. apply is_empty_nil. Qed.

(** Trailing whitespace adds no word. *)
Lemma split_from_blank_suffix s t word :
  blank t = true -> split_from word (s ++ t) = split_from word s.
Proof.
  intros Ht. revert word.
  induction s as [|c s IH]; intros word; simpl.
  - clear -Ht. revert word. induction t as [|c t IH]; intros word.
    + reflexivity.
    + simpl in *. apply andb_prop in Ht as [Hc Ht].
      rewrite Hc, (IH Ht []). destruct word; reflexivity.
  - destruct (isspace c); rewrite IH; reflexivity.
Qed.

(** Leading whitespace adds no word. *)
Lemma split_blank_prefix s t :
  blank t = true -> split (t ++ s) = split s.
Proof.
  unfold split. induction t as [|c t IH]; simpl; [reflexivity|].
  intros Ht. apply andb_prop in Ht as [Hc Ht].
  rewrite Hc. simpl. apply IH, Ht.
Qed.

Lemma split_lstrip s : split (lstrip s) = split s.
Proof.
  destruct (lstrip_split s) as (t & Ht & Hs).
  rewrite Hs at 2. symmetry. apply split_blank_prefix, Ht.
Qed.

Lemma split_rstrip s : split (rstrip s) = split s.
Proof.
  destruct (rstrip_split s) as (t & Ht & Hs).
  rewrite Hs at 2. symmetry. apply split_from_blank_suffix, Ht.
Qed.

(** The words of the stripped text are the words of the text. *)
Lemma split_strip s : split (strip s) = split s.
Proof. unfold strip. rewrite split_rstrip. apply split_lstrip. Qed.

(** A scan that holds a word, or still meets a character that is no
    whitespace, yields a first word, and that word is not empty. *)
Lemma split_from_head s word :
  word <> [] \/ blank s = false ->
  exists w ws, split_from word s = w :: ws /\ w <> [].
Proof.
  revert word. induction s as [|c s IH]; intros word Hw; simpl.
  - destruct Hw as [Hw|Hw]; [|discriminate].
    destruct word; [congruence|]. simpl. eauto.
  - destruct (isspace c) eqn:Hc.
    + destruct word as [|a word]; simpl.
      * apply IH. right. destruct Hw as [Hw|Hw]; [congruence|].
        simpl in Hw. rewrite Hc in Hw. exact Hw.
      * exists (a :: word), (split_from [] s). split; [reflexivity|discriminate].
    + apply IH. left. destruct word; discriminate.
Qed.

Lemma split_head s :
  blank s = false -> exists w ws, split s = w :: ws /\ w <> [].
Proof. intros Hb. apply split_from_head. right. exact Hb. Qed.

Lemma split_blank s : blank s = true -> split s = [].
Proof.
  intros Hb. rewrite <- (app_nil_l s).
  unfold split. rewrite split_from_blank_suffix by exact Hb. reflexivity.
Qed.

(** [split] yields words. *)
Lemma split_from_words s word :
  forallb (fun c => negb (isspace c)) word = true ->
  Forall is_word (split_from word s).
Proof.
  revert word. induction s as [|c s IH]; intros word Hw; simpl.
  - destruct word; simpl; constructor; [|constructor].
    split; [discriminate | exact Hw].
  - destruct (isspace c) eqn:Hc.
    + destruct word; simpl; [apply IH; reflexivity|].
      constructor; [|apply IH; reflexivity].
      split; [discriminate | exact Hw].
    + apply IH. rewrite forallb_app, Hw. simpl. rewrite Hc. reflexivity.
Qed.

Lemma split_words s : Forall is_word (split s).
Proof. apply split_from_words. reflexivity. Qed.

Lemma split_from_app_word w s word :
  forallb (fun c => negb (isspace c)) w = true ->
  split_from word (w ++ s) = split_from (word ++ w) s.
Proof.
  revert word. induction w as [|c w IH]; intros word Hw; simpl.
  - rewrite app_nil_r. reflexivity.
  - simpl in Hw. apply andb_prop in Hw as [Hc Hw].
    apply negb_true_iff in Hc. rewrite Hc, (IH _ Hw), <- app_assoc.
    reflexivity.
Qed.

(** [split] recovers the words that single spaces join. *)
Lemma split_join ws : Forall is_word ws -> split (join space ws) = ws.
Proof.
  unfold split. induction 1 as [|w ws [Hne Hw] Hws IH]; [reflexivity|].
  destruct ws as [|w' ws].
  - simpl. rewrite <- (app_nil_r w) at 1.
    rewrite split_from_app_word by exact Hw. simpl.
    destruct w; [congruence | reflexivity].
  - change (join space (w :: w' :: ws))
      with (w ++ space ++ join space (w' :: ws)).
    rewrite split_from_app_word by exact Hw.
    change (split_from ([] ++ w) (space ++ join space (w' :: ws)))
      with (flush w (split_from [] (join space (w' :: ws)))).
    rewrite IH. destruct w; [congruence | reflexivity].
Qed.

Lemma join_cons_nonempty sep w ws : w <> [] -> join sep (w :: ws) <> [].
Proof.
  intros Hw. simpl. destruct ws; [exact Hw|].
  destruct w; [congruence | discriminate].
Qed.

End Text.

(** ** Title Deriver *)

Example title_of_no_turns : extract_title_from_history [] = lit "New chat".
Proof. reflexivity. Qed.

Example title_of_blank_turn :
  extract_title_from_history [(lit "  ", lit "x")] = lit "New chat".
Proof. reflexivity. Qed.

Example title_of_eleven_words :
  extract_title_from_history [(lit "a b c d e f g h i j k", lit "x")]
  = lit "a b c d e f g h i j" ++ ellipsis.
Proof. reflexivity. Qed.

Example title_of_short_turn :
  extract_title_from_history [(lit " Hi	there  ", lit "x"); (lit "more", lit "y")]
  = lit "Hi there".
Proof. reflexivity. Qed.

(** A derived title is never the empty string. *)
Lemma extract_title_nonempty (history : list turn) :
  extract_title_from_history history <> [].
Proof.
  destruct history as [|t rest]; [discriminate|].
  simpl. rewrite is_empty_strip, split_strip.
  destruct (blank (fst t)) eqn:Hb; [discriminate|].
  destruct (split_head _ Hb) as (w & ws & -> & Hw).
  intros Heq. apply app_eq_nil in Heq as [Heq _].
  revert Heq. change (take 10 (w :: ws)) with (w :: take 9 ws).
  apply join_cons_nonempty, Hw.
Qed.

(** C5. [extract_title_from_history] gives the placeholder ["New chat"]
    for no turns and for a first turn whose user text is blank;
    otherwise the first 10 whitespace-separated words of that user text
    joined by single spaces, followed by the ellipsis exactly when there
    were more than 10 words. Only the first turn matters, and the title is
    never the empty string. *)
Theorem extract_title_spec (history : list turn) :
  (history = [] \/ (exists t rest, history = t :: rest /\ blank (fst t) = true)
   -> extract_title_from_history history = NEW_CHAT)
  /\ (forall t rest,
        history = t :: rest -> blank (fst t) = false ->
        let words := split (fst t) in
        extract_title_from_history history
        = join space (take 10 words)
          ++ (if (10 <? length words)%nat then ellipsis else []))
  /\ extract_title_from_history history
     = extract_title_from_history (take 1 history)
  /\ extract_title_from_history history <> [].
Proof.
  repeat split.
  - intros [-> | (t & rest & -> & Hb)]; [reflexivity|].
    simpl. rewrite is_empty_strip, Hb. reflexivity.
  - intros t rest -> Hb. simpl.
    rewrite is_empty_strip, Hb, split_strip. reflexivity.
  - destruct history; reflexivity.
  - apply extract_title_nonempty.
Qed.

Lemma extract_title_spec_witness :
  extract_title_from_history [] = NEW_CHAT
  /\ extract_title_from_history [(lit " ", lit "x")] = NEW_CHAT
  /\ extract_title_from_history
       [(lit "a b c d e f g h i j k l", lit "x"); (lit "y", lit "z")]
     = lit "a b c d e f g h i j" ++ ellipsis
  /\ extract_title_from_history [(lit " hello  world ", lit "x")]
     = lit "hello world".
Proof.
  split; [|split; [|split]].
  - apply (proj1 (extract_title_spec [])). left. reflexivity.
  - apply (proj1 (extract_title_spec [(lit " ", lit "x")])).
    right. eexists _, _. split; reflexivity.
  - exact (proj1 (proj2 (extract_title_spec
             [(lit "a b c d e f g h i j k l", lit "x"); (lit "y", lit "z")]))
             (lit "a b c d e f g h i j k l", lit "x") [(lit "y", lit "z")]
             eq_refl eq_refl).
  - exact (proj1 (proj2 (extract_title_spec [(lit " hello  world ", lit "x")]))
             (lit " hello  world ", lit "x") [] eq_refl eq_refl).
Defined.

(** ** Memory Assembler *)

Lemma all_memory_pairs_cons (conv : Conversation) (convs : list Conversation) :
  all_memory_pairs (conv :: convs)
  = ((fun t => mkPair (fst t) (snd t)) <$> conv_turns conv)
    ++ all_memory_pairs convs.
Proof. reflexivity. Qed.

Lemma all_memory_pairs_app (convs1 convs2 : list Conversation) :
  all_memory_pairs (convs1 ++ convs2)
  = all_memory_pairs convs1 ++ all_memory_pairs convs2.
Proof. apply flat_map_app. Qed.

Lemma all_memory_pairs_length (convs : list Conversation) :
  length (all_memory_pairs convs)
  = list_sum ((fun conv => length (conv_turns conv)) <$> convs).
Proof.
  induction convs as [|conv convs IH]; [reflexivity|].
  rewrite all_memory_pairs_cons, length_app, length_fmap, IH. reflexivity.
Qed.

Lemma last_n_length {A} (n : nat) (l : list A) :
  length (last_n n l) = Nat.min n (length l).
Proof. unfold last_n. rewrite length_drop. lia. Qed.

Lemma last_n_suffix {A} (n : nat) (l : list A) :
  l = take (length l - n) l ++ last_n n l.
Proof. unfold last_n. symmetry. apply take_drop. Qed.

Lemma last_n_short {A} (n : nat) (l : list A) :
  (length l <= n)%nat -> last_n n l = l.
Proof.
  intros Hn. unfold last_n.
  replace (length l - n)%nat with 0%nat by lia. reflexivity.
Qed.



(** Sixty stored pairs, spread over three conversations: the summary
    holds pairs 10 to 59. *)
Example context_of_sixty_pairs :
  build_messages_from_memory sixty_pairs
  = [system_msg;
     memory_msg (join (newline ++ newline)
       ((fun t => render_pair (mkPair (fst t) (snd t)))
          <$> numbered_turns 10 50))].
Proof. vm_compute. reflexivity. Qed.

Example context_of_empty_store : build_messages_from_memory [] = [system_msg].
Proof. reflexivity. Qed.

Example context_of_one_pair :
  build_messages_from_memory [mkConv (lit "a") (lit "Hi") [(lit "Hi", lit "Yo")]]
  = [system_msg;
     mkMsg system (MEMORY_LABEL ++ lit "User: Hi" ++ newline ++ lit "Assistant: Yo")].
Proof. reflexivity. Qed.

(** ** Topic selection *)

Section Topics.
Implicit Types (title : str) (c : Conversation) (convs : list Conversation).

Lemma find_title_none title convs :
  title ∉ conv_title <$> convs -> find_title title convs = ([], None).
Proof.
  induction convs as [|c convs IH]; simpl; [reflexivity|].
  intros Hnot. destruct (decide (conv_title c = title)) as [Heq|Hne].
  - exfalso. apply Hnot. rewrite Heq. left.
  - apply IH. intros Hin. apply Hnot. right. exact Hin.
Qed.

(** The scan stops at the first conversation that carries the title. *)
Lemma find_title_first title convs i c :
  convs !! i = Some c ->
  conv_title c = title ->
  (forall j c', (j < i)%nat -> convs !! j = Some c' -> conv_title c' <> title) ->
  find_title title convs = (conv_turns c, Some (conv_id c)).
Proof.
  revert i. induction convs as [|c0 convs IH]; intros i Hi Ht Hfirst.
  - destruct i; discriminate.
  - simpl. destruct (decide (conv_title c0 = title)) as [Heq|Hne].
    + destruct i as [|i].
      * simpl in Hi. injection Hi as ->. reflexivity.
      * exfalso. apply (Hfirst 0%nat c0); [lia | reflexivity | exact Heq].
    + destruct i as [|i].
      * simpl in Hi. injection Hi as ->. contradiction.
      * apply (IH i); [exact Hi | exact Ht |].
        intros j c' Hj Hc'. apply (Hfirst (S j) c'); [lia | exact Hc'].
Qed.

Lemma find_title_unique convs c :
  NoDup (conv_title <$> convs) -> c ∈ convs ->
  find_title (conv_title c) convs = (conv_turns c, Some (conv_id c)).
Proof.
  induction convs as [|c0 convs IH]; intros Hnd Hin.
  - inversion Hin.
  - rewrite fmap_cons in Hnd. apply NoDup_cons in Hnd as [Hfresh Hnd].
    simpl. destruct (decide (conv_title c0 = conv_title c)) as [Heq|Hne].
    + apply elem_of_cons in Hin as [->|Hin]; [reflexivity|].
      exfalso. apply Hfresh. rewrite Heq.
      apply list_elem_of_fmap. exists c. auto.
    + apply elem_of_cons in Hin as [->|Hin]; [congruence|].
      apply IH; assumption.
Qed.

End Topics.

(** C6, as the code has it. [load_conversation_by_title] returns no turns
    and no id for the empty title and for a title no conversation
    carries; otherwise the turns and the id of the first conversation, in
    snapshot order, with that title. So in a snapshot with pairwise
    distinct titles, selecting the title of a conversation [c] returns the
    turns of [c], provided that title is not empty. *)
Theorem select_topic_spec (title : str) (convs : list Conversation) :
  (title = [] \/ title ∉ conv_title <$> convs ->
   load_conversation_by_title title convs = ([], None))
  /\ (forall i c,
        title <> [] ->
        convs !! i = Some c ->
        conv_title c = title ->
        (forall j c', (j < i)%nat -> convs !! j = Some c' ->
                      conv_title c' <> title) ->
        load_conversation_by_title title convs
        = (conv_turns c, Some (conv_id c)))
  /\ (forall c,
        NoDup (conv_title <$> convs) -> c ∈ convs -> conv_title c <> [] ->
        load_conversation_by_title (conv_title c) convs
        = (conv_turns c, Some (conv_id c))).
Proof.
  unfold load_conversation_by_title. repeat split.
  - intros [-> | Hnot]; [reflexivity|].
    destruct (is_empty title); [reflexivity|]. apply find_title_none, Hnot.
  - intros i c Hne Hi Ht Hfirst.
    destruct title; [congruence|]. simpl.
    eapply find_title_first; eassumption.
  - intros c Hnd Hin Hne.
    destruct (conv_title c) eqn:Ht; [congruence|]. simpl.
    rewrite <- Ht. apply find_title_unique; assumption.
Qed.

Lemma select_topic_spec_witness :
  load_conversation_by_title [] [mkConv (lit "1") (lit "Hi") [(lit "Hi", lit "Yo")]]
  = ([], None)
  /\ load_conversation_by_title (lit "Hi")
       [mkConv (lit "0") (lit "Yo") [];
        mkConv (lit "1") (lit "Hi") [(lit "Hi", lit "Yo")];
        mkConv (lit "2") (lit "Hi") []]
     = ([(lit "Hi", lit "Yo")], Some (lit "1"))
  /\ load_conversation_by_title (lit "Hi")
       [mkConv (lit "0") (lit "Yo") [];
        mkConv (lit "1") (lit "Hi") [(lit "Hi", lit "Yo")]]
     = ([(lit "Hi", lit "Yo")], Some (lit "1")).
Proof.
  split; [|split].
  - apply (proj1 (select_topic_spec [] _)). left. reflexivity.
  - apply (proj1 (proj2 (select_topic_spec (lit "Hi") _)) 1%nat
             (mkConv (lit "1") (lit "Hi") [(lit "Hi", lit "Yo")])).
    + discriminate.
    + reflexivity.
    + reflexivity.
    + intros [|j] c' Hj Hc'; [|lia].
      injection Hc' as <-. discriminate.
  - apply (proj2 (proj2 (select_topic_spec (lit "Hi") _))
             (mkConv (lit "1") (lit "Hi") [(lit "Hi", lit "Yo")])).
    + apply NoDup_cons. split; [|apply NoDup_singleton].
      intros Hin. apply list_elem_of_singleton in Hin. discriminate.
    + right. left.
    + discriminate.
Defined.

(** A snapshot with one conversation whose title is empty: its titles are
    pairwise distinct, yet selecting that title returns no turns. *)
Lemma select_topic_empty_title :
  NoDup (conv_title <$> [untitled])
  /\ untitled ∈ [untitled]
  /\ load_conversation_by_title (conv_title untitled) [untitled] = ([], None)
  /\ fst (load_conversation_by_title (conv_title untitled) [untitled])
     <> conv_turns untitled.
Proof.
  split; [apply NoDup_singleton|]. split; [left|].
  split; [reflexivity | discriminate].
Qed.

(** ** The reference [json] codec *)

Module PyJsonFacts.
Import PyJson.

Lemma hex_value_digit (d : N) : d < 16 -> hex_value (hex_digit d) = Some d.
Proof.
  intros Hd.
  assert (Hin : In d (List.map N.of_nat (seq 0 16))).
  { apply in_map_iff. exists (N.to_nat d). split; [apply N2Nat.id|].
    apply in_seq. lia. }
  simpl in Hin.
  repeat (destruct Hin as [<-|Hin]; [reflexivity|]). destruct Hin.
Qed.

Lemma scan_unicode_escape (acc tail : str) (a b x1 x0 : N) :
  hex_value a = Some x1 -> hex_value b = Some x0 ->
  scan_string false acc (92 :: 117 :: 48 :: 48 :: a :: b :: tail)
  = scan_string false (acc ++ [x1 * 16 + x0]) tail.
Proof. intros Ha Hb. simpl. rewrite Ha, Hb. reflexivity. Qed.

(** Scanning the escape of a character yields the character. *)
Lemma scan_escape_char (c : char) (acc tail : str) :
  scan_string false acc (escape_char c ++ tail)
  = scan_string false (acc ++ [c]) tail.
Proof.
  unfold escape_char.
  destruct (c =? 34) eqn:E34; [apply N.eqb_eq in E34; subst; reflexivity|].
  destruct (c =? 92) eqn:E92; [apply N.eqb_eq in E92; subst; reflexivity|].
  destruct (c =? 10) eqn:E10; [apply N.eqb_eq in E10; subst; reflexivity|].
  destruct (c =? 13) eqn:E13; [apply N.eqb_eq in E13; subst; reflexivity|].
  destruct (c =? 9) eqn:E9; [apply N.eqb_eq in E9; subst; reflexivity|].
  destruct (c =? 8) eqn:E8; [apply N.eqb_eq in E8; subst; reflexivity|].
  destruct (c =? 12) eqn:E12; [apply N.eqb_eq in E12; subst; reflexivity|].
  destruct (c <? 32) eqn:E32.
  - apply N.ltb_lt in E32.
    change ((lit "\u00" ++ [hex_digit (c / 16); hex_digit (c mod 16)]) ++ tail)
      with (92 :: 117 :: 48 :: 48 :: hex_digit (c / 16) :: hex_digit (c mod 16) :: tail).
    rewrite (scan_unicode_escape acc tail _ _ (c / 16) (c mod 16)).
    + do 3 f_equal. rewrite N.mul_comm. symmetry. apply N.div_mod. lia.
    + apply hex_value_digit. apply N.Div0.div_lt_upper_bound. lia.
    + apply hex_value_digit. apply N.mod_lt. lia.
  - cbn [app scan_string]. rewrite E34, E92, E32. reflexivity.
Qed.

Lemma scan_quote_from (s acc tail : str) :
  scan_string false acc (flat_map escape_char s ++ [34] ++ tail)
  = Some (acc ++ s, tail).
Proof.
  revert acc. induction s as [|c s IH]; intros acc.
  - simpl. rewrite app_nil_r. reflexivity.
  - cbn [flat_map]. rewrite <- app_assoc, scan_escape_char, IH, <- app_assoc.
    reflexivity.
Qed.

(** A quoted string reads back as the string. *)
Lemma scan_quote (s tail : str) :
  exists body, quote s ++ tail = 34 :: body
               /\ scan_string false [] body = Some (s, tail).
Proof.
  exists (flat_map escape_char s ++ [34] ++ tail). split.
  - unfold quote. rewrite <- !app_assoc. reflexivity.
  - apply scan_quote_from.
Qed.

Lemma scan_digits_stop (a : N) (rest : str) :
  ends_number rest = true -> scan_digits a rest = (a, rest).
Proof.
  destruct rest as [|c rest]; [reflexivity|]. simpl. unfold is_digit.
  intros Hc. apply negb_true_iff in Hc. rewrite Hc. reflexivity.
Qed.

Lemma is_digit_mod (n : N) : is_digit (48 + n mod 10) = true.
Proof.
  pose proof (N.mod_lt n 10 ltac:(lia)) as Hm. unfold is_digit.
  generalize dependent (n mod 10). intros r Hr.
  apply andb_true_intro. split; apply N.leb_le; lia.
Qed.

Lemma scan_digits_step (a : N) (c : char) (tail : str) :
  is_digit c = true -> scan_digits a (c :: tail) = scan_digits (a * 10 + (c - 48)) tail.
Proof. intros Hc. cbn [scan_digits]. unfold is_digit in Hc. rewrite Hc. reflexivity. Qed.

(** The digits that [digits] puts in front of [acc] read back as [n],
    after whatever was read before. *)
Lemma digits_scan (fuel : nat) :
  forall n acc, (0 < fuel)%nat -> n < 2 ^ N.of_nat fuel ->
    exists ds d,
      digits fuel n acc = (d :: ds) ++ acc
      /\ is_digit d = true
      /\ forall a tail,
           scan_digits a ((d :: ds) ++ tail)
           = scan_digits (a * 10 ^ N.of_nat (length (d :: ds)) + n) tail.
Proof.
  induction fuel as [|fuel IH]; intros n acc Hpos Hn; [lia|].
  cbn [digits]. destruct (n <? 10) eqn:Hsmall.
  - apply N.ltb_lt in Hsmall. exists [], (48 + n mod 10).
    split; [reflexivity|]. split; [apply is_digit_mod|].
    intros a tail. cbn [app]. rewrite scan_digits_step by apply is_digit_mod.
    rewrite N.mod_small by exact Hsmall.
    f_equal. cbn [length]. change (10 ^ N.of_nat 1) with 10. lia.
  - apply N.ltb_ge in Hsmall.
    assert (Hfuel : (0 < fuel)%nat).
    { destruct fuel; [|lia]. simpl in Hn. lia. }
    assert (Hdiv : n / 10 < 2 ^ N.of_nat fuel).
    { apply N.Div0.div_lt_upper_bound.
      rewrite Nat2N.inj_succ, N.pow_succ_r' in Hn. lia. }
    destruct (IH (n / 10) ((48 + n mod 10) :: acc) Hfuel Hdiv)
      as (ds & d & Hds & Hd & Hscan).
    exists (ds ++ [48 + n mod 10]), d. split; [|split; [exact Hd|]].
    + rewrite Hds. cbn [app]. rewrite <- app_assoc. reflexivity.
    + intros a tail.
      replace ((d :: ds ++ [48 + n mod 10]) ++ tail)
        with ((d :: ds) ++ (48 + n mod 10) :: tail)
        by (cbn [app]; rewrite <- app_assoc; reflexivity).
      rewrite Hscan, scan_digits_step by apply is_digit_mod.
      f_equal. cbn [length]. rewrite length_app. cbn [length].
      replace (N.of_nat (S (length ds + 1))) with (N.succ (N.of_nat (S (length ds))))
        by lia.
      rewrite N.pow_succ_r'.
      pose proof (N.div_mod n 10 ltac:(lia)) as Hdm.
      generalize dependent (10 ^ N.of_nat (S (length ds))). intros p.
      generalize dependent (n mod 10). intros r.
      generalize dependent (n / 10). intros q. intros. lia.
Qed.

Lemma size_nat_bound (n : N) : n < 2 ^ N.of_nat (S (N.size_nat n)).
Proof.
  destruct n as [|p]; [reflexivity|].
  rewrite Nat2N.inj_succ, N.pow_succ_r'.
  assert (Hp : N.pos p < 2 ^ N.of_nat (N.size_nat (N.pos p))).
  { simpl N.size_nat. induction p as [p IH|p IH|]; simpl Pos.size_nat.
    - rewrite Nat2N.inj_succ, N.pow_succ_r'. lia.
    - rewrite Nat2N.inj_succ, N.pow_succ_r'. lia.
    - reflexivity. }
  lia.
Qed.

(** An integer reads back as written, in front of anything that does not
    go on with a digit. *)
Lemma scan_print_int (z : Z) (rest : str) :
  ends_number rest = true ->
  scan_int (print_int z ++ rest) = Some (z, rest)
  /\ exists c tail, print_int z = c :: tail /\ (c = 45 \/ is_digit c = true).
Proof.
  intros Hrest. unfold print_int.
  destruct (digits_scan (S (N.size_nat (Z.abs_N z))) (Z.abs_N z) []
              ltac:(lia) (size_nat_bound _)) as (ds & d & Hds & Hd & Hscan).
  rewrite Hds, app_nil_r.
  assert (Hval : scan_digits 0 ((d :: ds) ++ rest) = (Z.abs_N z, rest)).
  { rewrite Hscan, scan_digits_stop by exact Hrest. reflexivity. }
  destruct (z <? 0)%Z eqn:Hneg.
  - apply Z.ltb_lt in Hneg. split; [|exists 45, (d :: ds); auto].
    cbn [app scan_int]. change (45 =? 45) with true. cbv iota.
    rewrite Hd. change (d :: ds ++ rest) with ((d :: ds) ++ rest).
    rewrite Hval. f_equal. f_equal. lia.
  - apply Z.ltb_ge in Hneg. split; [|exists d, ds; auto].
    cbn [app scan_int].
    assert (Hd45 : (d =? 45) = false).
    { apply N.eqb_neq. intros ->. discriminate. }
    rewrite Hd45, Hd. change (d :: ds ++ rest) with ((d :: ds) ++ rest).
    rewrite Hval. f_equal. f_equal. lia.
Qed.

Lemma json_nested_ind (P : json -> Prop) :
  P JNull -> (forall b, P (JBool b)) -> (forall n, P (JInt n)) ->
  (forall s, P (JStr s)) ->
  (forall items, Forall P items -> P (JList items)) ->
  (forall fields, Forall (fun kv => P (snd kv)) fields -> P (JDict fields)) ->
  forall v, P v.
Proof.
  intros Hnull Hbool Hint Hstr Hlist Hdict.
  fix IH 1. intros [|b|n|s|items|fields].
  - exact Hnull.
  - apply Hbool.
  - apply Hint.
  - apply Hstr.
  - apply Hlist. induction items as [|x items IHitems]; constructor.
    + apply IH.
    + exact IHitems.
  - apply Hdict. induction fields as [|[k x] fields IHfields]; constructor.
    + apply IH.
    + exact IHfields.
Qed.

Lemma value_start_spec (c : char) :
  value_start c = true ->
  is_ws c = false /\ (c =? 93) = false /\ (c =? 125) = false
  /\ (c =? 44) = false.
Proof.
  unfold value_start, is_ws, is_digit. intros Hc.
  repeat match type of Hc with
  | (_ || _) = true => apply orb_prop in Hc as [Hc|Hc]
  end;
  try (apply N.eqb_eq in Hc; subst c; repeat split; reflexivity).
  apply andb_prop in Hc as [Hlo Hhi].
  apply N.leb_le in Hlo. apply N.leb_le in Hhi.
  repeat split;
    repeat (apply orb_false_intro); apply N.eqb_neq; lia.
Qed.

Lemma skip_ws_app (ws : str) (c : char) (s : str) :
  forallb is_ws ws = true -> is_ws c = false ->
  skip_ws (ws ++ c :: s) = c :: s.
Proof.
  intros Hws Hc. induction ws as [|a ws IH]; simpl.
  - rewrite Hc. reflexivity.
  - simpl in Hws. apply andb_prop in Hws as [Ha Hws].
    rewrite Ha. apply IH, Hws.
Qed.

Lemma line_break_blank (indent : option nat) (level : nat) :
  forallb is_ws (line_break indent level) = true.
Proof.
  destruct indent as [width|]; [|reflexivity].
  unfold line_break. simpl.
  induction (width * level)%nat; [reflexivity|exact IHn].
Qed.

Lemma item_separator_shape (indent : option nat) (level : nat) :
  exists ws, item_separator indent level = 44 :: ws
             /\ forallb is_ws ws = true.
Proof.
  destruct indent as [width|].
  - exists (line_break (Some width) level). split; [reflexivity|].
    apply line_break_blank.
  - exists [32]. split; reflexivity.
Qed.

Lemma quote_head (s : str) : exists tl, quote s = 34 :: tl.
Proof. unfold quote. eexists. reflexivity. Qed.

Lemma encode_head (indent : option nat) (level : nat) (v : json) :
  exists c tl, encode indent level v = c :: tl /\ value_start c = true.
Proof.
  destruct v as [|[]|n|s|items|fields]; cbn [encode];
    try (eexists _, _; split; reflexivity).
  - destruct (scan_print_int n [] eq_refl) as (_ & c & tl & -> & [->|Hc]).
    + eexists _, _. split; reflexivity.
    + exists c, tl. split; [reflexivity|].
      unfold value_start. rewrite Hc. repeat rewrite orb_true_r. reflexivity.
  - unfold bracket. destruct (List.map _ items);
      eexists _, _; split; reflexivity.
  - unfold bracket. destruct (List.map _ fields);
      eexists _, _; split; reflexivity.
Qed.

Lemma ends_number_non_digit (c : char) (s : str) :
  is_digit c = false -> ends_number (c :: s) = true.
Proof. intros Hc. simpl. rewrite Hc. reflexivity. Qed.

Lemma ends_number_closing (indent : option nat) (level : nat) (c : char)
    (rest : str) :
  is_digit c = false ->
  ends_number (line_break indent level ++ c :: rest) = true.
Proof.
  intros Hc. destruct indent; [reflexivity|]. apply ends_number_non_digit, Hc.
Qed.

(** The items of a list after the opening bracket. *)
Lemma parse_items_join (indent : option nat) (level : nat)
    (x : json) (items : list json) :
  Forall reads_back (x :: items) ->
  forall fuel ws rest,
    (list_sum (List.map (fun y => S (json_size y)) (x :: items)) <= fuel)%nat ->
    forallb is_ws ws = true ->
    parse_items fuel
      (ws ++ join (item_separator indent (S level))
                  (List.map (encode indent (S level)) (x :: items))
          ++ line_break indent level ++ 93 :: rest)
    = Some (x :: items, rest).
Proof.
  destruct (item_separator_shape indent (S level)) as (sep & -> & Hsep).
  revert x. induction items as [|y items IH]; intros x Hall fuel ws rest Hfuel Hws;
    apply Forall_cons in Hall as [Hx Hall];
    (destruct fuel as [|fuel]; [simpl in Hfuel; lia|]);
    cbn [parse_items].
  - cbn [List.map join].
    rewrite (Hx indent (S level) fuel ws);
      [| simpl in Hfuel; lia | exact Hws | apply ends_number_closing; reflexivity].
    cbn [mbind option_bind].
    rewrite (skip_ws_app _ 93) by (apply line_break_blank || reflexivity).
    reflexivity.
  - change (join (44 :: sep) (List.map (encode indent (S level)) (x :: y :: items)))
      with (encode indent (S level) x
            ++ (44 :: sep)
            ++ join (44 :: sep) (List.map (encode indent (S level)) (y :: items))).
    rewrite <- !app_assoc.
    rewrite (Hx indent (S level) fuel ws);
      [| simpl in Hfuel; lia | exact Hws | reflexivity].
    cbn [mbind option_bind app skip_ws].
    change (is_ws 44) with false. change (44 =? 44) with true. cbv iota.
    match goal with
    | |- context [parse_items fuel ?s] =>
        replace (parse_items fuel s) with (Some (y :: items, rest));
        [reflexivity|]
    end.
    symmetry. apply (IH y Hall fuel sep rest); [|exact Hsep].
    simpl in Hfuel |- *. lia.
Qed.

(** The fields of a dict after the opening brace. *)
Lemma parse_fields_join (indent : option nat) (level : nat)
    (kv : str * json) (fields : list (str * json)) :
  Forall (fun kv => reads_back (snd kv)) (kv :: fields) ->
  forall fuel ws rest,
    (list_sum (List.map (fun kv => S (json_size (snd kv))) (kv :: fields))
     <= fuel)%nat ->
    forallb is_ws ws = true ->
    parse_fields fuel
      (ws ++ join (item_separator indent (S level))
                  (List.map (fun kv => quote (fst kv) ++ lit ": "
                                       ++ encode indent (S level) (snd kv))
                            (kv :: fields))
          ++ line_break indent level ++ 125 :: rest)
    = Some (kv :: fields, rest).
Proof.
  destruct (item_separator_shape indent (S level)) as (sep & -> & Hsep).
  revert kv.
  induction fields as [|kv' fields IH];
    intros [k x] Hall fuel ws rest Hfuel Hws;
    apply Forall_cons in Hall as [Hx Hall];
    (destruct fuel as [|fuel]; [simpl in Hfuel; lia|]);
    cbn [parse_fields]; cbn [fst snd] in *.
  - cbn [List.map join fst snd]. rewrite <- !app_assoc.
    destruct (scan_quote k (lit ": " ++ encode indent (S level) x
                            ++ line_break indent level ++ 125 :: rest))
      as (body & -> & Hscan).
    rewrite (skip_ws_app ws 34) by (exact Hws || reflexivity).
    change (34 =? 34) with true. cbv iota. rewrite Hscan.
    cbn [mbind option_bind].
    change (lit ": " ++ encode indent (S level) x
            ++ line_break indent level ++ 125 :: rest)
      with (58 :: [32] ++ encode indent (S level) x
            ++ line_break indent level ++ 125 :: rest).
    cbn [skip_ws]. change (is_ws 58) with false.
    change (58 =? 58) with true. cbv iota.
    rewrite (Hx indent (S level) fuel [32]);
      [| simpl in Hfuel; lia | reflexivity | apply ends_number_closing; reflexivity].
    cbn [mbind option_bind].
    rewrite (skip_ws_app _ 125) by (apply line_break_blank || reflexivity).
    reflexivity.
  - change (join (44 :: sep)
              (List.map (fun kv => quote (fst kv) ++ lit ": "
                                   ++ encode indent (S level) (snd kv))
                        ((k, x) :: kv' :: fields)))
      with ((quote k ++ lit ": " ++ encode indent (S level) x)
            ++ (44 :: sep)
            ++ join (44 :: sep)
                 (List.map (fun kv => quote (fst kv) ++ lit ": "
                                      ++ encode indent (S level) (snd kv))
                           (kv' :: fields))).
    rewrite <- !app_assoc.
    match goal with
    | |- context [quote k ++ ?tail] =>
        destruct (scan_quote k tail) as (body & -> & Hscan)
    end.
    rewrite (skip_ws_app ws 34) by (exact Hws || reflexivity).
    change (34 =? 34) with true. cbv iota. rewrite Hscan.
    cbn [mbind option_bind].
    match goal with
    | |- context [skip_ws (lit ": " ++ ?tail)] =>
        change (skip_ws (lit ": " ++ tail)) with (58 :: [32] ++ tail)
    end.
    change (58 =? 58) with true. cbv iota.
    rewrite (Hx indent (S level) fuel [32]);
      [| simpl in Hfuel; lia | reflexivity | reflexivity].
    cbn [mbind option_bind app skip_ws].
    change (is_ws 44) with false. change (44 =? 44) with true. cbv iota.
    match goal with
    | |- context [parse_fields fuel ?s] =>
        replace (parse_fields fuel s) with (Some (kv' :: fields, rest));
        [reflexivity|]
    end.
    symmetry. apply (IH kv' Hall fuel sep rest); [|exact Hsep].
    simpl in Hfuel |- *. lia.
Qed.

Lemma parse_value_skip (fuel : nat) (ws : str) (c : char) (s : str) :
  forallb is_ws ws = true -> is_ws c = false ->
  parse_value (S fuel) (ws ++ c :: s) = parse_value (S fuel) (c :: s).
Proof.
  intros Hws Hc. cbn [parse_value].
  rewrite (skip_ws_app ws c s Hws Hc).
  cbn [skip_ws]. rewrite Hc. reflexivity.
Qed.

(** Every value reads back as written. *)
Theorem encode_reads_back (v : json) : reads_back v.
Proof.
  induction v as [|b|n|s|items IH|fields IH] using json_nested_ind;
    intros indent level fuel ws rest Hfuel Hws Hrest;
    (destruct fuel as [|fuel]; [simpl in Hfuel; lia|]).
  - cbn [encode]. change (lit "null" ++ rest) with (110 :: lit "ull" ++ rest).
    rewrite parse_value_skip by (exact Hws || reflexivity). reflexivity.
  - destruct b; cbn [encode].
    + change (lit "true" ++ rest) with (116 :: lit "rue" ++ rest).
      rewrite parse_value_skip by (exact Hws || reflexivity). reflexivity.
    + change (lit "false" ++ rest) with (102 :: lit "alse" ++ rest).
      rewrite parse_value_skip by (exact Hws || reflexivity). reflexivity.
  - cbn [encode].
    destruct (scan_print_int n rest Hrest) as (Hscan & c & tl & Hc & Hstart).
    rewrite Hc in *. cbn [app] in *.
    assert (Hv : value_start c = true /\ (c =? 110) = false
                 /\ (c =? 116) = false /\ (c =? 102) = false
                 /\ (c =? 34) = false /\ (c =? 91) = false
                 /\ (c =? 123) = false).
    { destruct Hstart as [->|Hd]; [repeat split; reflexivity|].
      unfold value_start. rewrite Hd, !orb_true_r.
      unfold is_digit in Hd. apply andb_prop in Hd as [Hlo Hhi].
      apply N.leb_le in Hlo. apply N.leb_le in Hhi.
      repeat split; apply N.eqb_neq; lia. }
    destruct Hv as (Hv & H110 & H116 & H102 & H34 & H91 & H123).
    rewrite parse_value_skip by (exact Hws || apply value_start_spec, Hv).
    cbn [parse_value skip_ws].
    rewrite (proj1 (value_start_spec c Hv)), H34, H91, H123.
    cbn [strip_prefix lit List.map list_ascii_of_string].
    change (N_of_ascii "n") with 110. change (N_of_ascii "t") with 116.
    change (N_of_ascii "f") with 102.
    rewrite (N.eqb_sym 110 c), (N.eqb_sym 116 c), (N.eqb_sym 102 c).
    rewrite H110, H116, H102, Hscan. reflexivity.
  - cbn [encode].
    destruct (scan_quote s rest) as (body & -> & Hscan).
    rewrite parse_value_skip by (exact Hws || reflexivity).
    cbn [parse_value skip_ws]. change (is_ws 34) with false. cbv iota.
    change (34 =? 34) with true. cbv iota. rewrite Hscan. reflexivity.
  - cbn [encode]. destruct items as [|x items].
    + change (bracket indent level 91 93 (List.map (encode indent (S level)) []) ++ rest)
        with (91 :: 93 :: rest).
      rewrite parse_value_skip by (exact Hws || reflexivity). reflexivity.
    + unfold bracket. cbn [List.map]. rewrite <- !app_assoc. cbn [app].
      rewrite parse_value_skip by (exact Hws || reflexivity).
      cbn [parse_value skip_ws]. change (is_ws 91) with false. cbv iota.
      change (91 =? 34) with false. change (91 =? 91) with true. cbv iota.
      destruct (encode_head indent (S level) x) as (c & tl & Hc & Hstart).
      destruct (value_start_spec c Hstart) as (Hcws & Hc93 & _).
      match goal with
      | |- context [skip_ws ?text] =>
          assert (Hskip : exists tail, skip_ws text = c :: tail)
      end.
      { destruct items; cbn [join List.map]; rewrite Hc; rewrite <- ?app_assoc;
          cbn [app]; rewrite (skip_ws_app _ c) by (apply line_break_blank || exact Hcws);
          eexists; reflexivity. }
      destruct Hskip as (tail & ->). rewrite Hc93.
      match goal with
      | |- context [parse_items fuel ?text] =>
          replace (parse_items fuel text) with (Some (x :: items, rest));
          [reflexivity|]
      end.
      symmetry. apply (parse_items_join indent level x items IH);
        [simpl in Hfuel |- *; lia | apply line_break_blank].
  - cbn [encode]. destruct fields as [|kv fields].
    + change (bracket indent level 123 125
                (List.map (fun kv => quote (fst kv) ++ lit ": "
                                     ++ encode indent (S level) (snd kv)) [])
              ++ rest)
        with (123 :: 125 :: rest).
      rewrite parse_value_skip by (exact Hws || reflexivity). reflexivity.
    + unfold bracket. cbn [List.map]. rewrite <- !app_assoc. cbn [app].
      rewrite parse_value_skip by (exact Hws || reflexivity).
      cbn [parse_value skip_ws]. change (is_ws 123) with false. cbv iota.
      change (123 =? 34) with false. change (123 =? 91) with false.
      change (123 =? 123) with true. cbv iota.
      match goal with
      | |- context [skip_ws ?text] =>
          assert (Hskip : exists tail, skip_ws text = 34 :: tail)
      end.
      { destruct (quote_head (fst kv)) as (tl & Hq).
        destruct fields; cbn [join List.map]; rewrite Hq; rewrite <- ?app_assoc;
          cbn [app]; rewrite (skip_ws_app _ 34) by (apply line_break_blank || reflexivity);
          eexists; reflexivity. }
      destruct Hskip as (tail & ->). change (34 =? 125) with false. cbv iota.
      match goal with
      | |- context [parse_fields fuel ?text] =>
          replace (parse_fields fuel text) with (Some (kv :: fields, rest));
          [reflexivity|]
      end.
      symmetry. apply (parse_fields_join indent level kv fields IH);
        [simpl in Hfuel |- *; lia | apply line_break_blank].
Qed.

(** Joined parts are at least as long as the parts and the separators
    between them. *)
Lemma join_length_bound (sep : str) (sizes : list nat) (parts : list str) :
  (1 <= length sep)%nat ->
  Forall2 (fun n part => (n <= length part)%nat) sizes parts ->
  (list_sum (S <$> sizes) <= S (length (join sep parts)))%nat.
Proof.
  intros Hsep. induction 1 as [|n part sizes parts Hn Hrest IH]; [simpl; lia|].
  destruct Hrest as [|n' part' sizes parts Hn' Hrest].
  - simpl. lia.
  - change (join sep (part :: part' :: parts))
      with (part ++ sep ++ join sep (part' :: parts)).
    rewrite fmap_cons. rewrite !length_app.
    change (list_sum (S n :: (S <$> n' :: sizes)))
      with (S n + list_sum (S <$> n' :: sizes))%nat.
    lia.
Qed.

Lemma item_separator_length (indent : option nat) (level : nat) :
  (1 <= length (item_separator indent level))%nat.
Proof.
  destruct (item_separator_shape indent level) as (ws & -> & _). simpl. lia.
Qed.

Lemma bracket_length (indent : option nat) (level : nat) (a b : char)
    (sizes : list nat) (parts : list str) :
  Forall2 (fun n part => (n <= length part)%nat) sizes parts ->
  (S (list_sum (S <$> sizes)) <= length (bracket indent level a b parts))%nat.
Proof.
  intros Hall. unfold bracket.
  destruct Hall as [|n part sizes parts Hn Hrest]; [simpl; lia|].
  pose proof (join_length_bound (item_separator indent (S level))
                (n :: sizes) (part :: parts)
                (item_separator_length _ _)
                (proj2 (Forall2_cons _ _ _ _ _) (conj Hn Hrest))).
  rewrite !length_app.
  change (length [a]) with 1%nat. change (length [b]) with 1%nat. lia.
Qed.

Lemma list_sum_succ {A} (f : A -> nat) (l : list A) :
  list_sum (List.map (fun x => S (f x)) l) = list_sum (S <$> (f <$> l)).
Proof.
  induction l as [|x l IH]; [reflexivity|].
  rewrite !fmap_cons. cbn [List.map].
  change (S (f x) + list_sum (List.map (fun x => S (f x)) l)
          = S (f x) + list_sum (S <$> (f <$> l)))%nat.
  rewrite IH. reflexivity.
Qed.

(** The fuel [decode] starts with is enough. *)
Lemma json_size_le_length (indent : option nat) (v : json) :
  forall level, (json_size v <= length (encode indent level v))%nat.
Proof.
  induction v as [|b|n|s|items IH|fields IH] using json_nested_ind;
    intros level; cbn [encode json_size].
  - simpl. lia.
  - destruct b; simpl; lia.
  - destruct (scan_print_int n [] eq_refl) as (_ & c & tl & -> & _).
    simpl. lia.
  - unfold quote. rewrite !length_app. simpl. lia.
  - rewrite list_sum_succ. apply bracket_length.
    apply Forall2_fmap, Forall_Forall2_diag.
    eapply Forall_impl; [exact IH|]. intros x Hx. apply Hx.
  - rewrite list_sum_succ. apply bracket_length.
    apply Forall2_fmap, Forall_Forall2_diag.
    eapply Forall_impl; [exact IH|]. intros [k x] Hx. cbn [fst snd] in *.
    rewrite !length_app. specialize (Hx (S level)). lia.
Qed.

(** [decode] inverts [encode], with or without indentation. *)
Theorem decode_encode (indent : option nat) (v : json) :
  decode (encode indent 0 v) = Ok v.
Proof.
  unfold decode.
  pose proof (encode_reads_back v indent 0%nat
                (S (length (encode indent 0 v))) [] []) as Hread.
  rewrite app_nil_r in Hread. cbn [app] in Hread.
  rewrite Hread; [reflexivity | | reflexivity | reflexivity].
  pose proof (json_size_le_length indent v 0%nat). lia.
Qed.
End PyJsonFacts.

(** ** Store *)

Lemma turn_json_inj (t1 t2 : turn) : turn_json t1 = turn_json t2 -> t1 = t2.
Proof.
  destruct t1, t2. unfold turn_json. simpl. intros Heq.
  injection Heq as -> ->. reflexivity.
Qed.

Lemma fmap_inj_list {A B} (f : A -> B) (l1 l2 : list A) :
  (forall a1 a2, f a1 = f a2 -> a1 = a2) -> f <$> l1 = f <$> l2 -> l1 = l2.
Proof.
  intros Hf. revert l2.
  induction l1 as [|a1 l1 IH]; intros [|a2 l2] Heq; try discriminate.
  - reflexivity.
  - rewrite !fmap_cons in Heq. injection Heq as Ha Hl.
    f_equal; [apply Hf, Ha | apply IH, Hl].
Qed.

(** The dict of a conversation determines the conversation. *)
Lemma conv_json_inj (c1 c2 : Conversation) : conv_json c1 = conv_json c2 -> c1 = c2.
Proof.
  destruct c1 as [i1 t1 ts1], c2 as [i2 t2 ts2]. unfold conv_json. simpl.
  intros Heq. injection Heq as -> -> Hts.
  f_equal. apply (fmap_inj_list turn_json); [apply turn_json_inj | exact Hts].
Qed.

Lemma snapshot_json_inj (convs1 convs2 : list Conversation) :
  snapshot_json convs1 = snapshot_json convs2 -> convs1 = convs2.
Proof.
  unfold snapshot_json. intros Heq. injection Heq as Heq.
  apply (fmap_inj_list conv_json); [apply conv_json_inj | exact Heq].
Qed.

Section StoreProps.
Context `{JsonLib}.
Implicit Types (path : string) (w : World) (convs : list Conversation).

(** The guards of [load_conversations], one file state at a time. *)
Lemma load_conversations_missing path w :
  disk w !! path = None -> load_conversations path w = (Ok [], w).
Proof.
  intros Hd. unfold load_conversations, bind, path_exists.
  rewrite Hd. reflexivity.
Qed.

Lemma load_conversations_locked path w e :
  disk w !! path = Some (Locked e) -> load_conversations path w = (Ok [], w).
Proof.
  intros Hd.
  unfold load_conversations, bind, path_exists, try_except, read_file.
  rewrite Hd. simpl. rewrite Hd. reflexivity.
Qed.

Lemma load_conversations_data path w text :
  disk w !! path = Some (Data text) ->
  load_conversations path w
  = (Ok match json_load text with
        | Ok (JList items) => items
        | _ => []
        end, w).
Proof.
  intros Hd.
  unfold load_conversations, bind, path_exists, try_except, read_file,
    lift, ret.
  rewrite Hd. simpl. rewrite Hd.
  destruct (json_load text) as [[]|e]; reflexivity.
Qed.

Lemma load_conversations_run path w :
  load_conversations path w
  = (Ok match disk w !! path with
        | Some (Data text) =>
            match json_load text with
            | Ok (JList items) => items
            | _ => []
            end
        | _ => []
        end, w).
Proof.
  destruct (disk w !! path) as [[text|e]|] eqn:Hd.
  - apply load_conversations_data, Hd.
  - eapply load_conversations_locked, Hd.
  - apply load_conversations_missing, Hd.
Qed.

(** C8. [load_conversations] never raises and leaves the world as it
    is. It returns the items of the array when the file exists, can be
    read, and parses to a top-level array; in every other case (no
    file, a file that cannot be opened, text that does not parse, a
    top-level value that is no array) it returns the empty list. *)
Theorem load_conversations_total path w :
  load_conversations path w
  = (Ok match disk w !! path with
        | Some (Data text) =>
            match json_load text with
            | Ok (JList items) => items
            | _ => []
            end
        | _ => []
        end, w).
Proof.
  unfold load_conversations, bind, path_exists, try_except, read_file,
    lift, ret.
  destruct (disk w !! path) as [[text|e]|] eqn:Hd; simpl; rewrite ?Hd.
  - destruct (json_load text) as [[]|e]; reflexivity.
  - reflexivity.
  - reflexivity.
Qed.

Lemma save_conversations_run convs path w :
  save_conversations convs path w
  = match disk w !! path with
    | Some (Locked e) => (Raise e, w)
    | _ => (Ok tt,
            set_disk (<[path := Data (json_dump (snapshot_json convs))]> (disk w)) w)
    end.
Proof. reflexivity. Qed.

(** Loading a file that was just written with the text of an array. *)
Lemma load_after_write path text items w :
  json_load text = Ok (JList items) ->
  let w1 := set_disk (<[path := Data text]> (disk w)) w in
  disk w1 !! path = Some (Data text)
  /\ load_conversations path w1 = (Ok items, w1).
Proof.
  intros Hjson w1.
  assert (Hsaved : disk w1 !! path = Some (Data text))
    by apply lookup_insert_eq.
  split; [exact Hsaved|].
  rewrite load_conversations_run, Hsaved, Hjson. reflexivity.
Qed.

Lemma save_again convs path w :
  let w1 := set_disk (<[path := Data (json_dump (snapshot_json convs))]> (disk w)) w in
  save_conversations convs path w1 = (Ok tt, w1).
Proof.
  intros w1. rewrite save_conversations_run.
  unfold w1 at 1. cbn [set_disk disk]. rewrite lookup_insert_eq.
  unfold w1, set_disk. cbn [disk conversations].
  rewrite insert_insert_eq. reflexivity.
Qed.

(** Saving a snapshot the library reads back as written, to a file that
    can be written. *)
Lemma save_then_load convs path w :
  json_load (json_dump (snapshot_json convs)) = Ok (snapshot_json convs) ->
  writable path w ->
  exists w1,
    save_conversations convs path w = (Ok tt, w1)
    /\ disk w1 !! path = Some (Data (json_dump (snapshot_json convs)))
    /\ load_conversations path w1 = (Ok (conv_json <$> convs), w1)
    /\ save_conversations convs path w1 = (Ok tt, w1).
Proof.
  intros Hjson Hopen.
  exists (set_disk (<[path := Data (json_dump (snapshot_json convs))]> (disk w)) w).
  destruct (load_after_write path _ _ w Hjson) as (Hsaved & Hload).
  split; [|split; [exact Hsaved | split; [exact Hload | apply save_again]]].
  rewrite save_conversations_run.
  destruct (disk w !! path) as [[text|e]|] eqn:Hd; try reflexivity.
  exfalso. apply (Hopen e). exact Hd.
Qed.

Section Lawful.
(** The contract of the library: [json.load] reads back what [json.dump]
    wrote. *)
Hypothesis json_reads_back : forall v, json_load (json_dump v) = Ok v.


End Lawful.

(** Saving the same snapshot twice, whatever the file was before. *)
Lemma save_conversations_idempotent convs path w :
  snd (save_conversations convs path (snd (save_conversations convs path w)))
  = snd (save_conversations convs path w).
Proof.
  rewrite (save_conversations_run convs path w).
  destruct (disk w !! path) as [[text|e]|] eqn:Hd; simpl.
  - rewrite save_conversations_run. simpl. rewrite lookup_insert_eq.
    unfold set_disk. simpl. rewrite insert_insert_eq. reflexivity.
  - rewrite save_conversations_run, Hd. reflexivity.
  - rewrite save_conversations_run. simpl. rewrite lookup_insert_eq.
    unfold set_disk. simpl. rewrite insert_insert_eq. reflexivity.
Qed.

End StoreProps.

(** The reference codec honours the contract, so with it the round trip
    holds for every snapshot and every writable file. *)
Lemma save_load_roundtrip_reference (convs : list Conversation)
    (path : string) (w : World) :
  writable path w ->
  exists w1,
    save_conversations (H := PyJson.lib) convs path w = (Ok tt, w1)
    /\ load_conversations (H := PyJson.lib) path w1
       = (Ok (conv_json <$> convs), w1)
    /\ save_conversations (H := PyJson.lib) convs path w1 = (Ok tt, w1).
Proof.
  intros Hopen.
  destruct (save_then_load (H := PyJson.lib) convs path w
              (PyJsonFacts.decode_encode _ _) Hopen)
    as (w1 & Hsave & _ & Hload & Hagain).
  exists w1. auto.
Qed.

Example load_missing_file :
  load_conversations (H := PyJson.lib) CONV_PATH (mkWorld [] ∅)
  = (Ok [], mkWorld [] ∅).
Proof. reflexivity. Qed.

Example load_corrupt_file :
  let w := mkWorld [] {[ CONV_PATH := Data (lit "[{") ]} in
  load_conversations (H := PyJson.lib) CONV_PATH w = (Ok [], w).
Proof. vm_compute. reflexivity. Qed.

Example load_top_level_dict :
  let w := mkWorld [] {[ CONV_PATH := Data (lit "{}") ]} in
  load_conversations (H := PyJson.lib) CONV_PATH w = (Ok [], w).
Proof. vm_compute. reflexivity. Qed.

Example load_array :
  let w := mkWorld [] {[ CONV_PATH := Data (lit "[1, null]") ]} in
  load_conversations (H := PyJson.lib) CONV_PATH w = (Ok [JInt 1; JNull], w).
Proof. vm_compute. reflexivity. Qed.


(** ** Conversation Manager *)

Section Frames.
Context `{JsonLib}.

Lemma keeps_ret {A} (a : A) : keeps_conversations (ret a).
Proof. intros w. reflexivity. Qed.

Lemma keeps_lift {A} (r : result A) : keeps_conversations (lift r).
Proof. intros w. reflexivity. Qed.

Lemma keeps_bind {A B} (m : M A) (k : A -> M B) :
  keeps_conversations m -> (forall a, keeps_conversations (k a)) ->
  keeps_conversations (bind m k).
Proof.
  intros Hm Hk w. unfold bind. specialize (Hm w).
  destruct (m w) as [[a|e] w']; simpl in *.
  - rewrite Hk. exact Hm.
  - exact Hm.
Qed.

Lemma keeps_try_except {A} (body : M A) (handler : exn -> M A) :
  keeps_conversations body -> (forall e, keeps_conversations (handler e)) ->
  keeps_conversations (try_except body handler).
Proof.
  intros Hb Hh w. unfold try_except. specialize (Hb w).
  destruct (body w) as [[a|e] w']; simpl in *.
  - exact Hb.
  - rewrite Hh. exact Hb.
Qed.

Lemma keeps_write_file path text : keeps_conversations (write_file path text).
Proof.
  intros w. unfold write_file. destruct (disk w !! path) as [[|]|]; reflexivity.
Qed.

Lemma keeps_append_file path text : keeps_conversations (append_file path text).
Proof.
  intros w. unfold append_file. destruct (disk w !! path) as [[|]|]; reflexivity.
Qed.

Lemma keeps_get_conversations : keeps_conversations get_conversations.
Proof. intros w. reflexivity. Qed.

Lemma keeps_save_conversations convs path :
  keeps_conversations (save_conversations convs path).
Proof. apply keeps_write_file. Qed.

Lemma keeps_log_flat_pair u a path :
  keeps_conversations (log_flat_pair u a path).
Proof.
  unfold log_flat_pair.
  destruct (is_empty u || is_empty a); [apply keeps_ret | apply keeps_append_file].
Qed.

Lemma keeps_make_tts env text : keeps_conversations (make_tts env text).
Proof.
  unfold make_tts. destruct (is_empty text); [apply keeps_ret|].
  apply keeps_try_except; [|intros e; apply keeps_ret].
  apply keeps_bind; [apply keeps_lift|]. intros audio.
  apply keeps_bind; [apply keeps_write_file|]. intros _. apply keeps_ret.
Qed.

Lemma keeps_path_ret {A} p (a : A) : keeps_path p (ret a).
Proof. intros w. reflexivity. Qed.

Lemma keeps_path_bind {A B} p (m : M A) (k : A -> M B) :
  keeps_path p m -> (forall a, keeps_path p (k a)) -> keeps_path p (bind m k).
Proof.
  intros Hm Hk w. unfold bind. specialize (Hm w).
  destruct (m w) as [[a|e] w']; simpl in *.
  - rewrite Hk. exact Hm.
  - exact Hm.
Qed.

Lemma keeps_path_get_conversations p : keeps_path p get_conversations.
Proof. intros w. reflexivity. Qed.

Lemma keeps_path_append_file p path text :
  p <> path -> keeps_path p (append_file path text).
Proof.
  intros Hp w. unfold append_file.
  destruct (disk w !! path) as [[|]|]; simpl; try reflexivity;
    apply lookup_insert_ne; congruence.
Qed.

Lemma keeps_path_log_flat_pair p u a path :
  p <> path -> keeps_path p (log_flat_pair u a path).
Proof.
  intros Hp. unfold log_flat_pair.
  destruct (is_empty u || is_empty a);
    [apply keeps_path_ret | apply keeps_path_append_file, Hp].
Qed.

(** [make_tts] always returns, and touches the audio file at most. *)
Lemma make_tts_total env text w :
  exists a w',
    make_tts env text w = (Ok a, w')
    /\ forall p, p <> AUDIO_FILE -> disk w' !! p = disk w !! p.
Proof.
  unfold make_tts. destruct (is_empty text); [eexists _, _; split; eauto|].
  unfold try_except, bind, lift, write_file, ret.
  destruct (gtts env text) as [audio|e]; simpl; [|eauto].
  destruct (disk w !! AUDIO_FILE) as [[old|e]|] eqn:Hd; simpl;
    eexists _, _; (split; [reflexivity|]); intros p Hp; simpl;
    try reflexivity; apply lookup_insert_ne; congruence.
Qed.

Lemma keeps_path_make_tts p env text :
  p <> AUDIO_FILE -> keeps_path p (make_tts env text).
Proof.
  intros Hp w. destruct (make_tts_total env text w) as (a & w' & -> & Hd).
  apply Hd, Hp.
Qed.

End Frames.

Section RecordUpdate.
Implicit Types (cid : str) (history : list turn) (convs : list Conversation).

(** The loop finds nothing exactly when no conversation has the id. *)
Lemma update_conversation_none cid history convs :
  update_conversation cid history convs = None <-> cid ∉ conv_id <$> convs.
Proof.
  induction convs as [|c convs IH]; simpl.
  - split; [intros _ Hin; inversion Hin | reflexivity].
  - destruct (decide (conv_id c = cid)) as [Heq|Hne].
    + split; [discriminate|]. intros Hnot. exfalso. apply Hnot.
      rewrite Heq. left.
    + destruct (update_conversation cid history convs) eqn:Hu; simpl.
      * split; [discriminate|]. intros Hnot.
        assert (Hnone : Some l = None); [|discriminate].
        apply IH. intros Hin. apply Hnot. right. exact Hin.
      * split; [|reflexivity]. intros _ Hin.
        apply elem_of_cons in Hin as [Heq|Hin]; [congruence|].
        apply (proj1 IH); [reflexivity | exact Hin].
Qed.

(** Otherwise it rewrites the first conversation with the id, in place,
    and nothing else. *)
Lemma update_conversation_some cid history convs :
  cid ∈ conv_id <$> convs ->
  exists i c,
    convs !! i = Some c
    /\ conv_id c = cid
    /\ (forall j c', (j < i)%nat -> convs !! j = Some c' -> conv_id c' <> cid)
    /\ update_conversation cid history convs
       = Some (<[i := mkConv cid (extract_title_from_history history) history]>
                 convs).
Proof.
  induction convs as [|c0 convs IH]; intros Hin; [inversion Hin|].
  simpl. destruct (decide (conv_id c0 = cid)) as [Heq|Hne].
  - exists 0%nat, c0.
    split; [reflexivity|]. split; [exact Heq|]. split; [intros j c'; lia|].
    rewrite Heq. reflexivity.
  - rewrite fmap_cons in Hin.
    apply elem_of_cons in Hin as [Heq|Hin]; [congruence|].
    destruct (IH Hin) as (i & c & Hi & Hc & Hfirst & ->).
    exists (S i), c.
    split; [exact Hi|]. split; [exact Hc|]. split; [|reflexivity].
    intros [|j] c' Hj Hc'.
    + simpl in Hc'. injection Hc' as <-. exact Hne.
    + apply (Hfirst j c'); [lia | exact Hc'].
Qed.

Lemma update_conversation_ids cid history convs convs' :
  update_conversation cid history convs = Some convs' ->
  conv_id <$> convs' = conv_id <$> convs.
Proof.
  revert convs'. induction convs as [|c convs IH]; intros convs'; simpl;
    [discriminate|].
  destruct (decide (conv_id c = cid)).
  - intros [= <-]. reflexivity.
  - destruct (update_conversation cid history convs) as [convs0|]; simpl;
      [|discriminate].
    intros [= <-]. rewrite !fmap_cons. f_equal. apply IH. reflexivity.
Qed.

(** Filing an exchange keeps the ids pairwise distinct, as long as the
    id [uuid4] hands out is not in use. *)
Lemma record_update_ids_unique env active history convs :
  uuid4 env ∉ conv_id <$> convs ->
  NoDup (conv_id <$> convs) ->
  NoDup (conv_id <$> (record_update env active history convs).2).
Proof.
  intros Hfresh Hnd.
  assert (Hcreate : NoDup (conv_id <$>
            convs ++ [mkConv (uuid4 env) (extract_title_from_history history)
                        history])).
  { rewrite fmap_app. apply NoDup_app. split; [exact Hnd|]. split.
    - intros x Hx Hin. apply list_elem_of_singleton in Hin. subst x.
      exact (Hfresh Hx).
    - apply NoDup_singleton. }
  unfold record_update. destruct active as [cid|]; [|exact Hcreate].
  destruct (update_conversation cid history convs) as [convs'|] eqn:Hu;
    [|exact Hcreate].
  simpl. rewrite (update_conversation_ids _ _ _ _ Hu). exact Hnd.
Qed.

(** Filing an exchange keeps every title non-empty. *)
Lemma record_update_titles env active history convs :
  Forall (fun c => conv_title c <> []) convs ->
  Forall (fun c => conv_title c <> []) (record_update env active history convs).2.
Proof.
  intros Hall.
  assert (Hcreate : Forall (fun c => conv_title c <> [])
            (convs ++ [mkConv (uuid4 env) (extract_title_from_history history)
                         history])).
  { apply Forall_app. split; [exact Hall|].
    apply Forall_singleton. apply extract_title_nonempty. }
  unfold record_update. destruct active as [cid|]; [|exact Hcreate].
  destruct (update_conversation cid history convs) as [convs'|] eqn:Hu;
    [|exact Hcreate].
  simpl. clear Hcreate. revert convs' Hu.
  induction convs as [|c convs IH]; intros convs' Hu; simpl in Hu;
    [discriminate|].
  apply Forall_cons in Hall as [Hc Hall].
  destruct (decide (conv_id c = cid)).
  - injection Hu as <-. apply Forall_cons. split; [|exact Hall].
    apply extract_title_nonempty.
  - destruct (update_conversation cid history convs) as [convs0|];
      [|discriminate].
    injection Hu as <-. apply Forall_cons. split; [exact Hc|].
    apply IH; [exact Hall | reflexivity].
Qed.

End RecordUpdate.

Section ManagerProps.
Context `{JsonLib}.
Variable env : Env.
Implicit Types (msg : str) (speak : bool) (hist : list turn)
  (active : option str) (w : World).

(** C7. A blank message changes nothing: the call returns the session
    turns it was given, no audio, the active id it was given and the
    current titles; the list [conversations] and every file, the Store
    among them, are as before. *)
Theorem blank_input_is_noop msg speak hist active w :
  blank msg = true ->
  jd_reply_core env msg speak hist active w
  = (Ok (hist, None, active, conv_title <$> conversations w), w).
Proof.
  intros Hb. unfold jd_reply_core. rewrite is_empty_strip, Hb. reflexivity.
Qed.

(** After a message that is not blank: the list [conversations] is
    updated first, then the Store is written, the pair logged, the
    audio made. *)
Lemma jd_reply_core_run msg speak hist active w :
  blank msg = false ->
  let answer := reply_text env (conversations w) hist msg in
  let hist' := session_after env (conversations w) hist msg in
  let filed := record_update env active hist' (conversations w) in
  jd_reply_core env msg speak hist active w
  = (save_conversations filed.2 CONV_PATH ;;;
     log_flat_pair (strip msg) answer FLAT_PATH ;;;
     audio <- (if speak then a <- make_tts env answer ;; ret (Some a)
               else ret None) ;;
     convs <- get_conversations ;;
     ret (hist', audio, Some filed.1, conv_title <$> convs))
      (set_conversations filed.2 w).
Proof.
  intros Hb answer hist' filed. unfold jd_reply_core.
  rewrite is_empty_strip, Hb.
  fold (reply_text env (conversations w) hist msg).
  unfold bind at 1, get_conversations at 1.
  fold (reply_text env (conversations w) hist msg).
  fold (session_after env (conversations w) hist msg).
  fold answer hist' filed.
  destruct filed as [rid convs']. reflexivity.
Qed.

(** Nothing after the update touches the list [conversations]. *)
Lemma jd_reply_core_conversations msg speak hist active w :
  blank msg = false ->
  conversations (snd (jd_reply_core env msg speak hist active w))
  = (record_update env active
       (session_after env (conversations w) hist msg) (conversations w)).2.
Proof.
  intros Hb. rewrite (jd_reply_core_run _ _ _ _ _ Hb).
  set (filed := record_update _ _ _ _).
  match goal with
  | |- conversations (snd (?m _)) = _ =>
      assert (Hk : keeps_conversations m)
  end.
  { apply keeps_bind; [apply keeps_save_conversations|]. intros _.
    apply keeps_bind; [apply keeps_log_flat_pair|]. intros _.
    apply keeps_bind.
    - destruct speak; [|apply keeps_ret].
      apply keeps_bind; [apply keeps_make_tts|]. intros a. apply keeps_ret.
    - intros audio. apply keeps_bind; [apply keeps_get_conversations|].
      intros convs. apply keeps_ret. }
  rewrite Hk. reflexivity.
Qed.

(** When the call returns, it returns the updated session, the id the
    exchange was filed under and the titles of the updated list. *)
Lemma jd_reply_core_returns msg speak hist active w r w' :
  blank msg = false ->
  jd_reply_core env msg speak hist active w = (Ok r, w') ->
  reply_history r = session_after env (conversations w) hist msg
  /\ reply_id r
     = Some (record_update env active
               (session_after env (conversations w) hist msg)
               (conversations w)).1
  /\ reply_titles r = conv_title <$> conversations w'.
Proof.
  intros Hb Hrun.
  pose proof (jd_reply_core_conversations msg speak hist active w Hb) as Hc.
  rewrite Hrun in Hc. simpl in Hc.
  rewrite (jd_reply_core_run _ _ _ _ _ Hb) in Hrun.
  set (filed := record_update _ _ _ _) in *.
  unfold bind in Hrun.
  destruct (save_conversations _ _ _) as [[[]|e1] w1]; [|discriminate].
  destruct (log_flat_pair _ _ _ _) as [[[]|e2] w2]; [|discriminate].
  destruct speak.
  - destruct (make_tts _ _ w2) as [[a|e3] w3]; [|discriminate].
    unfold get_conversations, ret in Hrun.
    injection Hrun as <- <-. auto.
  - unfold get_conversations, ret in Hrun.
    injection Hrun as <- <-. auto.
Qed.

End ManagerProps.

Lemma paths_distinct :
  CONV_PATH <> FLAT_PATH /\ CONV_PATH <> AUDIO_FILE /\ FLAT_PATH <> AUDIO_FILE.
Proof. repeat split; intros Heq; vm_compute in Heq; discriminate. Qed.


(** The exchange is filed under the id that [record_update] returns. *)
Lemma record_update_filed env active history convs :
  exists c,
    c ∈ (record_update env active history convs).2
    /\ conv_id c = (record_update env active history convs).1
    /\ conv_title c = extract_title_from_history history
    /\ conv_turns c = history.
Proof.
  assert (Hcreate : exists c,
    c ∈ convs ++ [mkConv (uuid4 env) (extract_title_from_history history) history]
    /\ conv_id c = uuid4 env
    /\ conv_title c = extract_title_from_history history
    /\ conv_turns c = history).
  { exists (mkConv (uuid4 env) (extract_title_from_history history) history).
    split; [|repeat split].
    apply elem_of_app. right. left. }
  unfold record_update. destruct active as [cid|]; [|exact Hcreate].
  destruct (update_conversation cid history convs) as [convs'|] eqn:Hu;
    [|exact Hcreate].
  assert (Hin : cid ∈ conv_id <$> convs).
  { destruct (decide (cid ∈ conv_id <$> convs)) as [Hin|Hnot]; [exact Hin|].
    apply (update_conversation_none cid history) in Hnot. congruence. }
  destruct (update_conversation_some cid history convs Hin)
    as (i & c & Hi & Hc & _ & Hupd).
  rewrite Hupd in Hu. injection Hu as <-.
  exists (mkConv cid (extract_title_from_history history) history).
  split; [|repeat split]. simpl.
  apply list_elem_of_lookup. exists i.
  apply list_lookup_insert_eq. eapply lookup_lt_Some, Hi.
Qed.

Section Completion.
Context `{JsonLib}.
Variable env : Env.
Implicit Types (msg : str) (speak : bool) (hist : list turn)
  (active : option str) (w : World).


End Completion.

Section Exchange.
Context `{JsonLib}.
Variable env : Env.
Implicit Types (msg : str) (speak : bool) (hist : list turn)
  (active : option str) (w : World).

(** Once the Store was written, neither the log nor the audio step
    touches it: with a writable Store file, the file holds the updated
    list whenever the message was not blank. *)
Lemma jd_reply_core_store msg speak hist active w :
  blank msg = false ->
  writable CONV_PATH w ->
  let w' := snd (jd_reply_core env msg speak hist active w) in
  disk w' !! CONV_PATH
  = Some (Data (json_dump (snapshot_json (conversations w')))).
Proof.
  intros Hb Hconv w'. unfold w'.
  rewrite (jd_reply_core_conversations env _ _ _ _ _ Hb).
  rewrite (jd_reply_core_run env _ _ _ _ _ Hb).
  destruct paths_distinct as (Hcf & Hca & Hfa).
  set (filed := record_update _ _ _ _).
  unfold bind at 1. rewrite save_conversations_run.
  cbn [set_conversations disk].
  destruct (disk w !! CONV_PATH) as [[text|e]|] eqn:Hd;
    try (exfalso; exact (Hconv e Hd));
    match goal with
    | |- disk (snd (?m ?w1)) !! _ = _ =>
        assert (Hk : keeps_path CONV_PATH m);
        [| rewrite Hk; apply lookup_insert_eq]
    end;
    (apply keeps_path_bind; [apply keeps_path_log_flat_pair, Hcf|]; intros _;
     apply keeps_path_bind;
     [ destruct speak; [|apply keeps_path_ret];
       apply keeps_path_bind; [apply keeps_path_make_tts, Hca|];
       intros a; apply keeps_path_ret
     | intros audio; apply keeps_path_bind;
       [apply keeps_path_get_conversations | intros convs; apply keeps_path_ret] ]).
Qed.

(** Every call keeps the titles of the snapshot non-empty. *)
Lemma jd_reply_core_titles msg speak hist active w :
  Forall (fun c => conv_title c <> []) (conversations w) ->
  Forall (fun c => conv_title c <> [])
    (conversations (snd (jd_reply_core env msg speak hist active w))).
Proof.
  intros Hall. destruct (blank msg) eqn:Hb.
  - unfold jd_reply_core. rewrite is_empty_strip, Hb. exact Hall.
  - rewrite (jd_reply_core_conversations env _ _ _ _ _ Hb).
    apply record_update_titles, Hall.
Qed.

(** C1. For a message that is not blank, with [hist'] the session
    turns followed by the new pair (the session the call returns): when
    [active] is [None] or the id of no conversation, one conversation is
    appended to the snapshot, with the id [uuid4] handed out, [hist'] as
    its turns and the title derived from [hist'], and that id is the one
    returned; otherwise the first conversation whose id is [active] gets
    [hist'] as its turns and the title derived from [hist'], in place,
    nothing is appended, and [active] is returned. The ids stay pairwise
    distinct as long as [uuid4] hands out an id that is not in use. *)
Theorem handle_message_resolves msg speak hist active w :
  blank msg = false ->
  let convs := conversations w in
  let hist' := session_after env convs hist msg in
  let title := extract_title_from_history hist' in
  let out := jd_reply_core env msg speak hist active w in
  let convs' := conversations (snd out) in
  (active = None \/ (exists cid, active = Some cid /\ cid ∉ conv_id <$> convs) ->
     convs' = convs ++ [mkConv (uuid4 env) title hist']
     /\ (forall r, fst out = Ok r -> reply_id r = Some (uuid4 env)))
  /\ (forall cid,
        active = Some cid -> cid ∈ conv_id <$> convs ->
        exists i c,
          convs !! i = Some c
          /\ conv_id c = cid
          /\ (forall j c', (j < i)%nat -> convs !! j = Some c' ->
                           conv_id c' <> cid)
          /\ convs' = <[i := mkConv cid title hist']> convs
          /\ length convs' = length convs
          /\ (forall r, fst out = Ok r -> reply_id r = Some cid))
  /\ (uuid4 env ∉ conv_id <$> convs -> NoDup (conv_id <$> convs) ->
      NoDup (conv_id <$> convs'))
  /\ (forall r, fst out = Ok r ->
                reply_history r = hist'
                /\ reply_titles r = conv_title <$> convs').
Proof.
  intros Hb convs hist' title out convs'.
  assert (Hconvs : convs' = (record_update env active hist' convs).2)
    by apply (jd_reply_core_conversations env _ _ _ _ _ Hb).
  assert (Hid : forall r, fst out = Ok r ->
                  reply_id r = Some (record_update env active hist' convs).1).
  { intros r Hr. unfold out in Hr.
    destruct (jd_reply_core env msg speak hist active w) as [r0 w'] eqn:Hrun.
    simpl in Hr. subst r0.
    apply (jd_reply_core_returns env _ _ _ _ _ _ _ Hb Hrun). }
  split; [|split; [|split]].
  - intros Hnew.
    assert (Hupd : record_update env active hist' convs
                   = (uuid4 env, convs ++ [mkConv (uuid4 env) title hist'])).
    { unfold record_update.
      destruct Hnew as [-> | (cid & -> & Hnot)]; [reflexivity|].
      apply (update_conversation_none cid hist') in Hnot.
      rewrite Hnot. reflexivity. }
    split.
    + rewrite Hconvs, Hupd. reflexivity.
    + intros r Hr. rewrite (Hid r Hr), Hupd. reflexivity.
  - intros cid -> Hin.
    destruct (update_conversation_some cid hist' convs Hin)
      as (i & c & Hi & Hc & Hfirst & Hupd).
    assert (Hrec : record_update env (Some cid) hist' convs
                   = (cid, <[i := mkConv cid title hist']> convs)).
    { unfold record_update. rewrite Hupd. reflexivity. }
    exists i, c. split; [exact Hi|]. split; [exact Hc|].
    split; [exact Hfirst|]. split; [rewrite Hconvs, Hrec; reflexivity|].
    split.
    + rewrite Hconvs, Hrec. apply length_insert.
    + intros r Hr. rewrite (Hid r Hr), Hrec. reflexivity.
  - intros Hfresh Hnd. rewrite Hconvs.
    apply record_update_ids_unique; assumption.
  - intros r Hr. unfold convs', out in *.
    destruct (jd_reply_core env msg speak hist active w) as [r0 w'] eqn:Hrun.
    simpl in Hr. subst r0.
    destruct (jd_reply_core_returns env _ _ _ _ _ _ _ Hb Hrun)
      as (Hhist & _ & Htitles).
    split; [exact Hhist | exact Htitles].
Qed.

(** A call to the model that raises is worth a call that returns the
    error text: the two runs of [jd_reply_core] agree, whatever the
    disk. *)
Lemma backend_failure_as_reply msg speak hist active w e :
  ollama_chat env (build_messages_from_memory (conversations w)
                   ++ session_messages hist (strip msg)) = Raise e ->
  jd_reply_core env msg speak hist active w
  = jd_reply_core
      (mkEnv (fun _ => Ok (lit "Ollama error: " ++ exn_str e))
             (uuid4 env) (gtts env))
      msg speak hist active w.
Proof.
  intros Hfail. unfold jd_reply_core.
  destruct (is_empty (strip msg)); [reflexivity|].
  unfold bind at 1 7, get_conversations at 1 4, ask_model.
  cbn [ollama_chat]. rewrite Hfail. reflexivity.
Qed.


(** C3, as the code has it. The write of the flat record is not
    guarded: when the log cannot be opened, the error reaches the caller
    of [jd_reply_core]. By then the list [conversations] is updated and,
    the Store being writable, written. *)
Theorem flat_log_failure_propagates msg speak hist active w e :
  blank msg = false ->
  reply_text env (conversations w) hist msg <> [] ->
  writable CONV_PATH w ->
  disk w !! FLAT_PATH = Some (Locked e) ->
  let hist' := session_after env (conversations w) hist msg in
  let filed := record_update env active hist' (conversations w) in
  exists w',
    jd_reply_core env msg speak hist active w = (Raise e, w')
    /\ conversations w' = filed.2
    /\ disk w' !! CONV_PATH = Some (Data (json_dump (snapshot_json filed.2)))
    /\ disk w' !! FLAT_PATH = Some (Locked e).
Proof.
  intros Hb Hans Hconv Hlocked hist' filed.
  destruct paths_distinct as (Hcf & _ & _).
  rewrite (jd_reply_core_run env _ _ _ _ _ Hb). fold hist' filed.
  assert (Hu : is_empty (strip msg) = false)
    by (rewrite is_empty_strip; exact Hb).
  assert (Ha : is_empty (reply_text env (conversations w) hist msg) = false)
    by (destruct (reply_text env (conversations w) hist msg);
        [congruence | reflexivity]).
  unfold bind at 1. rewrite save_conversations_run.
  cbn [set_conversations disk].
  eexists.
  destruct (disk w !! CONV_PATH) as [[text|e0]|] eqn:Hd;
    try (exfalso; exact (Hconv e0 Hd));
    unfold bind at 1, log_flat_pair; rewrite Hu, Ha; cbn [orb];
    unfold append_file; cbn [set_disk disk];
    rewrite lookup_insert_ne by exact Hcf; rewrite Hlocked;
    (split; [reflexivity|]); cbn [set_disk disk conversations];
    (split; [reflexivity|]);
    (split; [apply lookup_insert_eq|]);
    rewrite lookup_insert_ne by exact Hcf; exact Hlocked.
Qed.

End Exchange.

Lemma blank_input_is_noop_witness :
  jd_reply_core (H := PyJson.lib) greeter (lit "  ") true
    [(lit "Hi", lit "Hello!")] (Some (lit "3f2a")) world_two
  = (Ok ([(lit "Hi", lit "Hello!")], None, Some (lit "3f2a"),
         [lit "Hi there"; lit "New chat"]),
     world_two).
Proof.
  apply (blank_input_is_noop (H := PyJson.lib) greeter (lit "  ") true
           [(lit "Hi", lit "Hello!")] (Some (lit "3f2a")) world_two).
  reflexivity.
Defined.

Lemma handle_message_resolves_witness :
  conversations
    (snd (jd_reply_core (H := PyJson.lib) greeter (lit "Hi") false [] None
            empty_world))
  = [mkConv (lit "id-1") (lit "Hi") [(lit "Hi", lit "Hello!")]]
  /\ exists i c,
       two_topics !! i = Some c
       /\ conv_id c = lit "3f2a"
       /\ conversations
            (snd (jd_reply_core (H := PyJson.lib) greeter (lit " more ") false
                    [(lit "Hi there", lit "Hello!")] (Some (lit "3f2a"))
                    world_two))
          = <[i := mkConv (lit "3f2a") (lit "Hi there")
                     [(lit "Hi there", lit "Hello!"); (lit "more", lit "Hello!")]]>
              two_topics.
Proof.
  split.
  - apply (proj1 (handle_message_resolves (H := PyJson.lib) greeter (lit "Hi")
                    false [] None empty_world eq_refl)).
    left. reflexivity.
  - destruct (proj1 (proj2 (handle_message_resolves (H := PyJson.lib) greeter
                              (lit " more ") false
                              [(lit "Hi there", lit "Hello!")]
                              (Some (lit "3f2a")) world_two eq_refl))
                (lit "3f2a") eq_refl)
      as (i & c & Hi & Hc & _ & Hupd & _).
    + left.
    + exists i, c. split; [exact Hi|]. split; [exact Hc|]. exact Hupd.
Defined.


(** The log cannot be opened: the append raises, and so does the call. *)
Lemma flat_log_failure_reaches_caller :
  log_flat_pair (H := PyJson.lib) (lit "Hi") (lit "Hello!") FLAT_PATH log_locked
  = (Raise permission_denied, log_locked)
  /\ fst (jd_reply_core (H := PyJson.lib) greeter (lit "Hi") false [] None
            log_locked)
     = Raise permission_denied.
Proof. split; vm_compute; reflexivity. Qed.

Lemma flat_log_failure_propagates_witness :
  exists w',
    jd_reply_core (H := PyJson.lib) greeter (lit "Hi") false [] None log_locked
    = (Raise permission_denied, w')
    /\ conversations w' = [mkConv (lit "id-1") (lit "Hi") [(lit "Hi", lit "Hello!")]]
    /\ disk w' !! CONV_PATH
       = Some (Data (PyJson.encode (Some 2%nat) 0 (snapshot_json
                [mkConv (lit "id-1") (lit "Hi") [(lit "Hi", lit "Hello!")]])))
    /\ disk w' !! FLAT_PATH = Some (Locked permission_denied).
Proof.
  apply (flat_log_failure_propagates (H := PyJson.lib) greeter (lit "Hi") false
           [] None log_locked permission_denied).
  - reflexivity.
  - discriminate.
  - intros e. cbn [disk log_locked]. rewrite lookup_singleton_ne; [discriminate|].
    intros Heq. vm_compute in Heq. discriminate.
  - apply lookup_singleton_eq.
Defined.

(** ** Topic handler of the user interface *)

Section SelectTopic.
Context `{JsonLib}.
Variable env : Env.

Lemma on_select_topic_run (title : str) (convs : list Conversation) :
  on_select_topic title convs
  = (last_n 5 (load_conversation_by_title title convs).1,
     (load_conversation_by_title title convs).2).
Proof.
  unfold on_select_topic, load_conversation_by_title.
  destruct (is_empty title); [reflexivity|].
  destruct (find_title title convs). reflexivity.
Qed.

(** C10. Selecting the title of a conversation [c] (the first one with
    that title) installs the last 5 turns of [c] and its id. When [c]
    has more than 5 turns these are exactly 5 turns, a strict suffix of
    the turns of [c]; a message sent next, which is not blank, replaces
    the turns of the conversation with that id by these 5 turns and the
    new pair, 6 turns in all, and that list is what a writable Store
    then holds. *)
Theorem on_select_topic_last_five (title : str) (convs : list Conversation)
    (i : nat) (c : Conversation) :
  title <> [] ->
  convs !! i = Some c ->
  conv_title c = title ->
  (forall j c', (j < i)%nat -> convs !! j = Some c' -> conv_title c' <> title) ->
  let selected := on_select_topic title convs in
  selected = (last_n 5 (conv_turns c), Some (conv_id c))
  /\ ((5 < length (conv_turns c))%nat ->
      length selected.1 = 5%nat
      /\ (exists older, older <> [] /\ conv_turns c = older ++ selected.1)
      /\ forall msg speak w,
           conversations w = convs ->
           blank msg = false ->
           let hist' := session_after env convs selected.1 msg in
           let w' := snd (jd_reply_core env msg speak selected.1 selected.2 w) in
           length hist' = 6%nat
           /\ (exists j c0,
                 convs !! j = Some c0
                 /\ conv_id c0 = conv_id c
                 /\ conversations w'
                    = <[j := mkConv (conv_id c)
                               (extract_title_from_history hist') hist']> convs)
           /\ (writable CONV_PATH w ->
               disk w' !! CONV_PATH
               = Some (Data (json_dump (snapshot_json (conversations w')))))).
Proof.
  intros Hne Hi Ht Hfirst selected.
  assert (Hsel : selected = (last_n 5 (conv_turns c), Some (conv_id c))).
  { unfold selected. rewrite on_select_topic_run.
    unfold load_conversation_by_title.
    destruct title; [congruence|]. cbn [is_empty].
    rewrite (find_title_first _ convs i c Hi Ht Hfirst). reflexivity. }
  split; [exact Hsel|]. intros Hlong. rewrite Hsel. cbn [fst snd].
  assert (Hfive : length (last_n 5 (conv_turns c)) = 5%nat)
    by (rewrite last_n_length; lia).
  split; [exact Hfive|]. split.
  - exists (take (length (conv_turns c) - 5) (conv_turns c)). split.
    + intros Hnil. apply (f_equal length) in Hnil.
      rewrite length_take in Hnil. simpl in Hnil. lia.
    + apply last_n_suffix.
  - intros msg speak w Hw Hb. split; [|split].
    + unfold session_after. rewrite length_app, Hfive. reflexivity.
    + assert (Hin : conv_id c ∈ conv_id <$> conversations w).
      { rewrite Hw. apply list_elem_of_fmap. exists c. split; [reflexivity|].
        apply list_elem_of_lookup. exists i. exact Hi. }
      destruct (update_conversation_some (conv_id c)
                  (session_after env (conversations w)
                     (last_n 5 (conv_turns c)) msg)
                  (conversations w) Hin)
        as (j & c0 & Hj & Hc0 & _ & Hupd).
      exists j, c0. rewrite <- Hw. split; [exact Hj|]. split; [exact Hc0|].
      rewrite (jd_reply_core_conversations env _ _ _ _ _ Hb).
      unfold record_update. rewrite Hupd. reflexivity.
    + intros Hconv. apply jd_reply_core_store; assumption.
Qed.

End SelectTopic.

Lemma on_select_topic_last_five_witness :
  on_select_topic (lit "0") [long_topic]
  = (numbered_turns 50 5, Some (lit "9c1d"))
  /\ length (on_select_topic (lit "0") [long_topic]).1 = 5%nat
  /\ exists j c0,
       [long_topic] !! j = Some c0
       /\ conv_id c0 = lit "9c1d"
       /\ conversations
            (snd (jd_reply_core (H := PyJson.lib) greeter (lit "more") false
                    (on_select_topic (lit "0") [long_topic]).1
                    (on_select_topic (lit "0") [long_topic]).2
                    (mkWorld [long_topic] ∅)))
          = <[j := mkConv (lit "9c1d") (lit "2")
                     (numbered_turns 50 5 ++ [(lit "more", lit "Hello!")])]>
              [long_topic].
Proof.
  pose proof (on_select_topic_last_five (H := PyJson.lib) greeter (lit "0")
                [long_topic] 0 long_topic) as Hsel.
  destruct Hsel as (Hrun & Hlong).
  - discriminate.
  - reflexivity.
  - reflexivity.
  - intros j c' Hj. lia.
  - split; [exact Hrun|].
    destruct Hlong as (Hfive & _ & Hnext); [vm_compute; lia|].
    split; [exact Hfive|].
    destruct (Hnext (lit "more") false (mkWorld [long_topic] ∅) eq_refl eq_refl)
      as (_ & (j & c0 & Hj & Hc0 & Hupd) & _).
    exists j, c0. split; [exact Hj|]. split; [exact Hc0|]. exact Hupd.
Defined.

(** ** End-to-end scenarios *)

(** A first message in an empty Store: one conversation titled ["Hi"],
    written to the Store and to the log. *)
Example first_message :
  jd_reply_core (H := PyJson.lib) greeter (lit "Hi") false [] None empty_world
  = (Ok ([(lit "Hi", lit "Hello!")], None, Some (lit "id-1"), [lit "Hi"]),
     mkWorld [mkConv (lit "id-1") (lit "Hi") [(lit "Hi", lit "Hello!")]]
       (<[FLAT_PATH := Data (PyJson.encode None 0
                                (flat_record (lit "Hi") (lit "Hello!"))
                             ++ newline)]>
          (<[CONV_PATH := Data (PyJson.encode (Some 2%nat) 0 (snapshot_json
               [mkConv (lit "id-1") (lit "Hi") [(lit "Hi", lit "Hello!")]]))]>
             ∅))).
Proof. vm_compute. reflexivity. Qed.

(** A further message in the first of two topics: its turns are replaced
    by the session, its title still comes from the first turn. *)
Example further_message :
  conversations
    (snd (jd_reply_core (H := PyJson.lib) greeter (lit "more") false
            [(lit "Hi there", lit "Hello!"); (lit "and", lit "so")]
            (Some (lit "3f2a")) world_two))
  = [ mkConv (lit "3f2a") (lit "Hi there")
        [(lit "Hi there", lit "Hello!"); (lit "and", lit "so");
         (lit "more", lit "Hello!")];
      mkConv (lit "77b0") (lit "New chat") [] ].
Proof. vm_compute. reflexivity. Qed.

(** An id that no conversation has: a new conversation is appended. *)
Example unknown_id :
  conv_id <$> conversations
    (snd (jd_reply_core (H := PyJson.lib) greeter (lit "Hi") false []
            (Some (lit "gone")) world_two))
  = [lit "3f2a"; lit "77b0"; lit "id-1"].
Proof. vm_compute. reflexivity. Qed.

(** The text the Store holds after the first message. *)
Example first_message_store :
  PyJson.encode (Some 2%nat) 0
    (snapshot_json [mkConv (lit "id-1") (lit "Hi") [(lit "Hi", lit "Hello!")]])
  = lit "[" ++ newline
    ++ lit "  {" ++ newline
    ++ lit "    " ++ [34] ++ lit "id" ++ [34] ++ lit ": "
       ++ [34] ++ lit "id-1" ++ [34] ++ lit "," ++ newline
    ++ lit "    " ++ [34] ++ lit "title" ++ [34] ++ lit ": "
       ++ [34] ++ lit "Hi" ++ [34] ++ lit "," ++ newline
    ++ lit "    " ++ [34] ++ lit "turns" ++ [34] ++ lit ": [" ++ newline
    ++ lit "      [" ++ newline
    ++ lit "        " ++ [34] ++ lit "Hi" ++ [34] ++ lit "," ++ newline
    ++ lit "        " ++ [34] ++ lit "Hello!" ++ [34] ++ newline
    ++ lit "      ]" ++ newline
    ++ lit "    ]" ++ newline
    ++ lit "  }" ++ newline
    ++ lit "]".
Proof. vm_compute. reflexivity. Qed.

(** The line the log gets for the first message. *)
Example first_message_log :
  PyJson.encode None 0 (flat_record (lit "Hi") (lit "Hello!"))
  = lit "{" ++ [34] ++ lit "instruction" ++ [34] ++ lit ": "
    ++ [34] ++ lit "Hi" ++ [34] ++ lit ", "
    ++ [34] ++ lit "output" ++ [34] ++ lit ": "
    ++ [34] ++ lit "Hello!" ++ [34] ++ lit "}".
Proof. vm_compute. reflexivity. Qed.

(** An empty reply of the model is filed but not logged. *)
Example empty_reply_not_logged :
  let quiet := mkEnv (fun _ => Ok []) (lit "id-3") (fun _ => Ok []) in
  disk (snd (jd_reply_core (H := PyJson.lib) quiet (lit "Hi") false [] None
               log_locked)) !! FLAT_PATH
  = Some (Locked permission_denied)
  /\ exists r,
       fst (jd_reply_core (H := PyJson.lib) quiet (lit "Hi") false [] None
              log_locked) = Ok r.
Proof. split; [vm_compute; reflexivity | eexists; vm_compute; reflexivity]. Qed.

(* ===================================================================== *)
(** * Further properties *)
(* ===================================================================== *)

(** ** How a call ends *)

Lemma writable_or_locked (path : string) (w : World) :
  writable path w \/ exists e, disk w !! path = Some (Locked e).
Proof.
  destruct (disk w !! path) as [[text|e]|] eqn:Hd.
  - left. intros e. rewrite Hd. discriminate.
  - right. exists e. reflexivity.
  - left. intros e. rewrite Hd. discriminate.
Qed.

Lemma writable_not_locked (path : string) (w : World) (e : exn) :
  writable path w -> disk w !! path = Some (Locked e) -> False.
Proof. intros Hw Hd. exact (Hw e Hd). Qed.

Section Outcomes.
Context `{JsonLib}.
Variable env : Env.
Implicit Types (msg : str) (speak : bool) (hist : list turn)
  (active : option str) (w : World).

Lemma make_tts_run text w :
  make_tts env text w
  = if is_empty text then (Ok ""%string, w)
    else match gtts env text with
         | Raise _ => (Ok ""%string, w)
         | Ok audio =>
             match disk w !! AUDIO_FILE with
             | Some (Locked _) => (Ok ""%string, w)
             | _ => (Ok AUDIO_FILE,
                     set_disk (<[AUDIO_FILE := Data audio]> (disk w)) w)
             end
         end.
Proof.
  unfold make_tts. destruct (is_empty text); [reflexivity|].
  unfold try_except, bind, lift, write_file, ret.
  destruct (gtts env text) as [audio|e]; [|reflexivity].
  destruct (disk w !! AUDIO_FILE) as [[old|e]|]; reflexivity.
Qed.

Lemma save_conversations_stored convs w0 :
  writable CONV_PATH w0 ->
  save_conversations convs CONV_PATH (set_conversations convs w0)
  = (Ok tt, stored convs w0).
Proof.
  intros Hw. rewrite save_conversations_run. cbn [set_conversations disk].
  destruct (disk w0 !! CONV_PATH) as [[text|e]|] eqn:Hd; try reflexivity.
  destruct (writable_not_locked _ _ _ Hw Hd).
Qed.

Lemma file_text_stored convs w0 :
  disk (stored convs w0) !! FLAT_PATH = disk w0 !! FLAT_PATH.
Proof.
  unfold stored. cbn [set_disk disk].
  apply lookup_insert_ne. apply paths_distinct.
Qed.

Lemma log_flat_pair_logged u a w0 :
  is_empty u || is_empty a = true \/ writable FLAT_PATH w0 ->
  log_flat_pair u a FLAT_PATH w0 = (Ok tt, logged u a w0).
Proof.
  intros Hcase. unfold log_flat_pair, logged.
  destruct (is_empty u || is_empty a); [reflexivity|].
  destruct Hcase as [Hcase|Hw]; [discriminate|].
  unfold append_file, file_text, log_line.
  destruct (disk w0 !! FLAT_PATH) as [[text|e]|] eqn:Hd; try reflexivity.
  destruct (writable_not_locked _ _ _ Hw Hd).
Qed.

Lemma log_flat_pair_locked u a w0 e :
  is_empty u || is_empty a = false ->
  disk w0 !! FLAT_PATH = Some (Locked e) ->
  log_flat_pair u a FLAT_PATH w0 = (Raise e, w0).
Proof.
  intros Hne Hd. unfold log_flat_pair. rewrite Hne.
  unfold append_file. rewrite Hd. reflexivity.
Qed.

(** The Store cannot be opened: the call raises right after the update. *)
Lemma jd_reply_core_store_locked msg speak hist active w e :
  blank msg = false ->
  disk w !! CONV_PATH = Some (Locked e) ->
  jd_reply_core env msg speak hist active w
  = (Raise e,
     set_conversations
       (record_update env active
          (session_after env (conversations w) hist msg) (conversations w)).2
       w).
Proof.
  intros Hb Hd. rewrite (jd_reply_core_run env _ _ _ _ _ Hb).
  unfold bind at 1. rewrite save_conversations_run.
  cbn [set_conversations disk]. rewrite Hd. reflexivity.
Qed.

(** The log cannot be opened and there is a record to append: the call
    raises after the Store was written. *)
Lemma jd_reply_core_log_locked msg speak hist active w e :
  blank msg = false ->
  reply_text env (conversations w) hist msg <> [] ->
  writable CONV_PATH w ->
  disk w !! FLAT_PATH = Some (Locked e) ->
  jd_reply_core env msg speak hist active w
  = (Raise e,
     stored (record_update env active
               (session_after env (conversations w) hist msg)
               (conversations w)).2 w).
Proof.
  intros Hb Hans Hconv Hd. rewrite (jd_reply_core_run env _ _ _ _ _ Hb).
  unfold bind at 1. rewrite (save_conversations_stored _ _ Hconv).
  unfold bind at 1. rewrite (log_flat_pair_locked _ _ _ e); [reflexivity| |].
  - rewrite is_empty_strip, Hb.
    destruct (reply_text env (conversations w) hist msg);
      [congruence | reflexivity].
  - rewrite file_text_stored. exact Hd.
Qed.

(** Otherwise the call returns; the audio step decides the last world. *)
Lemma jd_reply_core_ok msg speak hist active w :
  blank msg = false ->
  writable CONV_PATH w ->
  reply_text env (conversations w) hist msg = [] \/ writable FLAT_PATH w ->
  let answer := reply_text env (conversations w) hist msg in
  let hist' := session_after env (conversations w) hist msg in
  let filed := record_update env active hist' (conversations w) in
  let w3 := logged (strip msg) answer (stored filed.2 w) in
  exists audio w4,
    jd_reply_core env msg speak hist active w
    = (Ok (hist', audio, Some filed.1, conv_title <$> filed.2), w4)
    /\ if speak
       then exists a, make_tts env answer w3 = (Ok a, w4) /\ audio = Some a
       else audio = None /\ w4 = w3.
Proof.
  intros Hb Hconv Hlog answer hist' filed w3.
  rewrite (jd_reply_core_run env _ _ _ _ _ Hb). fold answer hist' filed.
  unfold bind at 1. rewrite (save_conversations_stored _ _ Hconv).
  unfold bind at 1. rewrite (log_flat_pair_logged (strip msg) answer).
  - fold w3. unfold bind at 1.
    assert (Hc3 : conversations w3 = filed.2).
    { unfold w3, logged. destruct (_ || _); reflexivity. }
    destruct speak.
    + unfold bind at 1.
      pose proof (make_tts_run answer w3) as Hrun.
      pose proof (keeps_make_tts env answer w3) as Hkeep.
      destruct (make_tts env answer w3) as [[a|e] w4] eqn:Htts.
      * exists (Some a), w4. simpl in Hkeep.
        unfold ret at 1. unfold bind, get_conversations, ret.
        rewrite Hkeep, Hc3. split; [reflexivity|]. exists a. auto.
      * exfalso. revert Hrun. destruct (is_empty answer); [discriminate|].
        destruct (gtts env answer); [|discriminate].
        destruct (disk w3 !! AUDIO_FILE) as [[|]|]; discriminate.
    + exists None, w3. unfold bind, get_conversations, ret.
      rewrite Hc3. auto.
  - destruct Hlog as [Hempty|Hw].
    + left. unfold answer. rewrite Hempty. apply orb_true_r.
    + right. intros e. rewrite file_text_stored. apply Hw.
Qed.

(** A call that returns found the Store file, and the log file if it had
    a record to append, open for writing. *)
Lemma jd_reply_core_ok_writable msg speak hist active w r w' :
  blank msg = false ->
  jd_reply_core env msg speak hist active w = (Ok r, w') ->
  writable CONV_PATH w
  /\ (reply_text env (conversations w) hist msg = [] \/ writable FLAT_PATH w).
Proof.
  intros Hb Hrun.
  destruct (writable_or_locked CONV_PATH w) as [Hconv|(e & Hd)].
  - split; [exact Hconv|].
    destruct (reply_text env (conversations w) hist msg) as [|c answer] eqn:Ha;
      [left; reflexivity|].
    destruct (writable_or_locked FLAT_PATH w) as [Hflat|(e & Hd)];
      [right; exact Hflat|].
    rewrite (jd_reply_core_log_locked msg speak hist active w e) in Hrun;
      [discriminate | exact Hb | rewrite Ha; discriminate | exact Hconv
      | exact Hd].
  - rewrite (jd_reply_core_store_locked _ _ _ _ _ e Hb Hd) in Hrun.
    discriminate.
Qed.

End Outcomes.

Section Endings.
Context `{JsonLib}.
Variable env : Env.
Implicit Types (msg : str) (speak : bool) (hist : list turn)
  (active : option str) (w : World).


(** X2. When the Store file cannot be opened, the call raises that error
    with the list [conversations] already updated and the disk exactly as
    it was: the Store is stale, no record is logged, no audio is made. *)
Theorem store_failure_leaves_disk msg speak hist active w e :
  blank msg = false ->
  disk w !! CONV_PATH = Some (Locked e) ->
  exists w',
    jd_reply_core env msg speak hist active w = (Raise e, w')
    /\ disk w' = disk w
    /\ conversations w'
       = (record_update env active
            (session_after env (conversations w) hist msg)
            (conversations w)).2
    /\ exists c, c ∈ conversations w'
                 /\ conv_turns c = session_after env (conversations w) hist msg.
Proof.
  intros Hb Hd. eexists. split.
  - apply (jd_reply_core_store_locked env _ _ _ _ _ e Hb Hd).
  - cbn [set_conversations disk conversations].
    split; [reflexivity|]. split; [reflexivity|].
    destruct (record_update_filed env active
                (session_after env (conversations w) hist msg)
                (conversations w)) as (c & Hin & _ & _ & Hturns).
    exists c. auto.
Qed.

Lemma file_text_stored_flat convs w :
  file_text FLAT_PATH (stored convs w) = file_text FLAT_PATH w.
Proof. unfold file_text. rewrite file_text_stored. reflexivity. Qed.

Lemma file_text_logged u a w :
  file_text FLAT_PATH (logged u a w)
  = file_text FLAT_PATH w
    ++ (if is_empty u || is_empty a then [] else log_line u a).
Proof.
  unfold logged. destruct (is_empty u || is_empty a).
  - rewrite app_nil_r. reflexivity.
  - unfold file_text at 1. cbn [set_disk disk].
    rewrite lookup_insert_eq. reflexivity.
Qed.

(** X3. The flat log only grows, and by one record at most per call:
    after any call its text is its old text, followed by the record of
    the new pair when the call returned with a message that was not
    blank and a reply that is not empty, and by nothing otherwise. *)
Theorem flat_log_append_only msg speak hist active w :
  let answer := reply_text env (conversations w) hist msg in
  let out := jd_reply_core env msg speak hist active w in
  file_text FLAT_PATH (snd out)
  = file_text FLAT_PATH w
    ++ match fst out with
       | Ok _ => if blank msg || is_empty answer then []
                 else log_line (strip msg) answer
       | Raise _ => []
       end.
Proof.
  intros answer out. unfold out.
  destruct (blank msg) eqn:Hb.
  - unfold jd_reply_core. rewrite is_empty_strip, Hb. cbn.
    rewrite app_nil_r. reflexivity.
  - destruct (writable_or_locked CONV_PATH w) as [Hconv|(e & Hd)].
    + assert (Hcases : answer = [] \/ writable FLAT_PATH w
                       \/ (answer <> [] /\ exists e,
                             disk w !! FLAT_PATH = Some (Locked e))).
      { destruct answer as [|c a] eqn:Ha; [left; reflexivity|].
        destruct (writable_or_locked FLAT_PATH w) as [Hflat|Hlocked].
        - right. left. exact Hflat.
        - right. right. split; [discriminate | exact Hlocked]. }
      assert (Hok : answer = [] \/ writable FLAT_PATH w ->
        file_text FLAT_PATH (jd_reply_core env msg speak hist active w).2
        = file_text FLAT_PATH w
          ++ match (jd_reply_core env msg speak hist active w).1 with
             | Ok _ => if false || is_empty answer then []
                       else log_line (strip msg) answer
             | Raise _ => []
             end).
      { intros Hlog.
        destruct (jd_reply_core_ok env msg speak hist active w Hb Hconv Hlog)
          as (audio & w4 & Hrun & Haudio).
        rewrite Hrun. cbn [fst snd orb].
        assert (Hw3 : file_text FLAT_PATH
                  (logged (strip msg) answer
                     (stored (record_update env active
                        (session_after env (conversations w) hist msg)
                        (conversations w)).2 w))
                = file_text FLAT_PATH w
                  ++ (if is_empty answer then [] else log_line (strip msg) answer)).
        { rewrite file_text_logged, file_text_stored_flat.
          rewrite is_empty_strip, Hb. reflexivity. }
        destruct speak.
        - destruct Haudio as (a & Htts & _).
          pose proof (keeps_path_make_tts FLAT_PATH env answer
                        (proj2 (proj2 paths_distinct))
                        (logged (strip msg) answer
                           (stored (record_update env active
                              (session_after env (conversations w) hist msg)
                              (conversations w)).2 w))) as Hkeep.
          fold answer in Htts. rewrite Htts in Hkeep. cbn [snd] in Hkeep.
          unfold file_text at 1. rewrite Hkeep. exact Hw3.
        - destruct Haudio as (_ & ->). exact Hw3. }
      destruct Hcases as [Hempty | [Hflat | (Hne & e & Hd)]].
      * apply Hok. left. exact Hempty.
      * apply Hok. right. exact Hflat.
      * rewrite (jd_reply_core_log_locked env msg speak hist active w e
                   Hb Hne Hconv Hd).
        cbn [fst snd]. rewrite file_text_stored_flat, app_nil_r. reflexivity.
    + rewrite (jd_reply_core_store_locked env _ _ _ _ _ e Hb Hd).
      cbn [fst snd]. rewrite app_nil_r. reflexivity.
Qed.

End Endings.

(** ** What a call leaves alone *)

Section Untouched.
Context `{JsonLib}.
Variable env : Env.
Implicit Types (msg : str) (speak : bool) (hist : list turn)
  (active : option str) (w : World).

Lemma keeps_path_write_file p path text :
  p <> path -> keeps_path p (write_file path text).
Proof.
  intros Hp w. unfold write_file.
  destruct (disk w !! path) as [[|]|]; simpl; try reflexivity;
    apply lookup_insert_ne; congruence.
Qed.

(** X4. A call writes to the Store file, the log file and the audio file
    and to nothing else; without voice it leaves the audio file alone
    too. *)
Theorem jd_reply_core_touches_three_paths msg speak hist active w p :
  p <> CONV_PATH ->
  p <> FLAT_PATH ->
  p <> AUDIO_FILE \/ speak = false ->
  disk (snd (jd_reply_core env msg speak hist active w)) !! p = disk w !! p.
Proof.
  intros Hconv Hflat Haudio.
  destruct (blank msg) eqn:Hb.
  - unfold jd_reply_core. rewrite is_empty_strip, Hb. reflexivity.
  - rewrite (jd_reply_core_run env _ _ _ _ _ Hb).
    match goal with
    | |- disk (snd (?m ?w1)) !! _ = _ => assert (Hk : keeps_path p m)
    end.
    { apply keeps_path_bind; [apply keeps_path_write_file, Hconv|]. intros _.
      apply keeps_path_bind; [apply keeps_path_log_flat_pair, Hflat|]. intros _.
      apply keeps_path_bind.
      - destruct speak; [|apply keeps_path_ret].
        destruct Haudio as [Haudio|Hs]; [|discriminate].
        apply keeps_path_bind; [apply keeps_path_make_tts, Haudio|].
        intros a. apply keeps_path_ret.
      - intros audio. apply keeps_path_bind;
          [apply keeps_path_get_conversations | intros; apply keeps_path_ret]. }
    rewrite Hk. reflexivity.
Qed.

Lemma record_update_ids env0 active history convs :
  conv_id <$> (record_update env0 active history convs).2 = conv_id <$> convs
  \/ conv_id <$> (record_update env0 active history convs).2
     = (conv_id <$> convs) ++ [uuid4 env0].
Proof.
  unfold record_update. destruct active as [cid|].
  - destruct (update_conversation cid history convs) as [convs'|] eqn:Hu.
    + left. apply (update_conversation_ids _ _ _ _ Hu).
    + right. cbn [snd]. rewrite fmap_app. reflexivity.
  - right. cbn [snd]. rewrite fmap_app. reflexivity.
Qed.

(** X5. No call removes a conversation, reorders the snapshot or changes
    an id: the ids before the call are the ids after it, followed by at
    most one new id. *)
Theorem jd_reply_core_keeps_ids msg speak hist active w :
  let convs := conversations w in
  let convs' := conversations (snd (jd_reply_core env msg speak hist active w)) in
  conv_id <$> convs `prefix_of` conv_id <$> convs'
  /\ (length convs <= length convs' <= S (length convs))%nat.
Proof.
  intros convs convs'. unfold convs'.
  destruct (blank msg) eqn:Hb.
  - unfold jd_reply_core. rewrite is_empty_strip, Hb. cbn.
    split; [reflexivity | fold convs; lia].
  - rewrite (jd_reply_core_conversations env _ _ _ _ _ Hb).
    destruct (record_update_ids env active
                (session_after env (conversations w) hist msg)
                (conversations w)) as [Hids|Hids].
    + split; [rewrite Hids; reflexivity|].
      apply (f_equal length) in Hids. rewrite !length_fmap in Hids.
      fold convs in Hids |- *. lia.
    + split; [rewrite Hids; apply prefix_app_r; reflexivity|].
      apply (f_equal length) in Hids.
      rewrite length_app, !length_fmap in Hids. cbn in Hids.
      fold convs in Hids |- *. lia.
Qed.


End Untouched.

(** ** Titles *)

Lemma join_last (sep : str) (l : list str) (w x : str) :
  join sep (l ++ [w]) ++ x = join sep (l ++ [w ++ x]).
Proof.
  induction l as [|a l IH]; [reflexivity|].
  destruct l as [|b l].
  - cbn [app join]. rewrite <- !app_assoc. reflexivity.
  - change (join sep ((a :: b :: l) ++ [w]))
      with (a ++ sep ++ join sep ((b :: l) ++ [w])).
    change (join sep ((a :: b :: l) ++ [w ++ x]))
      with (a ++ sep ++ join sep ((b :: l) ++ [w ++ x])).
    rewrite <- IH, <- !app_assoc. reflexivity.
Qed.

Lemma is_word_ellipsis (w : str) : is_word w -> is_word (w ++ ellipsis).
Proof.
  intros [Hne Hw]. split.
  - destruct w; [congruence | discriminate].
  - rewrite forallb_app, Hw. reflexivity.
Qed.

Lemma blank_split (s : str) : blank s = is_empty (concat (split s)).
Proof.
  destruct (blank s) eqn:Hb.
  - rewrite (split_blank s Hb). reflexivity.
  - destruct (split_head s Hb) as (w & ws & -> & Hw).
    destruct w; [congruence | reflexivity].
Qed.

(** X7. A title is one to ten words joined by single spaces: it has no
    whitespace at either end and none inside but the single spaces, also
    when it was cut and carries the ellipsis. *)
Theorem extract_title_shape (history : list turn) :
  exists ws,
    extract_title_from_history history = join space ws
    /\ Forall is_word ws
    /\ (1 <= length ws <= 10)%nat.
Proof.
  destruct history as [|t rest].
  - exists [lit "New"; lit "chat"]. split; [reflexivity|].
    split; [|simpl; lia].
    repeat constructor; discriminate.
  - cbn [extract_title_from_history]. rewrite is_empty_strip, split_strip.
    destruct (blank (fst t)) eqn:Hb.
    + exists [lit "New"; lit "chat"]. split; [reflexivity|].
      split; [|simpl; lia].
      repeat constructor; discriminate.
    + pose proof (split_words (fst t)) as Hwords.
      destruct (split_head _ Hb) as (w & ws & Hsplit & _).
      rewrite Hsplit in *.
      set (taken := take 10 (w :: ws)).
      assert (Htaken : Forall is_word taken) by apply Forall_take, Hwords.
      assert (Hlen : (1 <= length taken <= 10)%nat).
      { unfold taken. rewrite length_take. cbn [length]. lia. }
      destruct (10 <? length (w :: ws))%nat.
      * destruct (exists_last (l := taken)) as (init & x & Heq).
        { intros Hnil. rewrite Hnil in Hlen. simpl in Hlen. lia. }
        rewrite Heq in *. exists (init ++ [x ++ ellipsis]).
        split; [apply join_last|]. split.
        -- apply Forall_app in Htaken as [Hinit Hx].
           apply Forall_app. split; [exact Hinit|].
           apply Forall_singleton, is_word_ellipsis.
           exact (proj1 (Forall_singleton _ _) Hx).
        -- rewrite length_app in *. exact Hlen.
      * exists taken. rewrite app_nil_r. auto.
Qed.

(** X8. The title depends on the words of the first user text only:
    two first turns whose user texts differ in whitespace alone, whatever
    the replies and the later turns, get the same title. *)
Theorem extract_title_words (t1 t2 : turn) (rest1 rest2 : list turn) :
  split (fst t1) = split (fst t2) ->
  extract_title_from_history (t1 :: rest1)
  = extract_title_from_history (t2 :: rest2).
Proof.
  intros Hwords. cbn [extract_title_from_history].
  rewrite !is_empty_strip, !split_strip, !blank_split, Hwords. reflexivity.
Qed.

Lemma extract_title_words_witness :
  extract_title_from_history
    [(lit "  Hi   there", lit "Hello!"); (lit "more", lit "x")]
  = extract_title_from_history [(lit "Hi there ", lit "Yo")].
Proof.
  apply (extract_title_words (lit "  Hi   there", lit "Hello!")
           (lit "Hi there ", lit "Yo") [(lit "more", lit "x")] []).
  reflexivity.
Defined.

(** ** After a call *)

Lemma find_title_app_l (t : str) (l1 l2 : list Conversation) :
  t ∈ conv_title <$> l1 -> find_title t (l1 ++ l2) = find_title t l1.
Proof.
  induction l1 as [|c l1 IH]; intros Hin; [inversion Hin|].
  simpl. destruct (decide (conv_title c = t)); [reflexivity|].
  apply IH. rewrite fmap_cons in Hin.
  apply elem_of_cons in Hin as [Heq|Hin]; [congruence | exact Hin].
Qed.

Lemma find_title_app_r (t : str) (l1 l2 : list Conversation) :
  t ∉ conv_title <$> l1 -> find_title t (l1 ++ l2) = find_title t l2.
Proof.
  induction l1 as [|c l1 IH]; intros Hnot; [reflexivity|].
  simpl. destruct (decide (conv_title c = t)) as [Heq|Hne].
  - exfalso. apply Hnot. rewrite <- Heq. left.
  - apply IH. intros Hin. apply Hnot. right. exact Hin.
Qed.

Lemma record_update_create (env : Env) (active : option str)
    (history : list turn) (convs : list Conversation) :
  active = None \/ (exists cid, active = Some cid /\ cid ∉ conv_id <$> convs) ->
  record_update env active history convs
  = (uuid4 env,
     convs ++ [mkConv (uuid4 env) (extract_title_from_history history) history]).
Proof.
  unfold record_update. intros [-> | (cid & -> & Hnot)]; [reflexivity|].
  apply (update_conversation_none cid history) in Hnot.
  rewrite Hnot. reflexivity.
Qed.

Section Afterwards.
Context `{JsonLib}.
Variable env : Env.
Implicit Types (msg : str) (speak : bool) (hist : list turn)
  (active : option str) (w : World).

(** X9. After a call that creates a conversation, selecting the new
    title returns the new conversation (its turns and its id) provided no
    earlier conversation carries that title; and every title an earlier
    conversation carries still selects what it selected before, so an
    earlier conversation with the same title hides the new one. *)
Theorem lookup_after_create msg speak hist active w :
  blank msg = false ->
  active = None
  \/ (exists cid, active = Some cid /\ cid ∉ conv_id <$> conversations w) ->
  let convs := conversations w in
  let hist' := session_after env convs hist msg in
  let title := extract_title_from_history hist' in
  let convs' := conversations (snd (jd_reply_core env msg speak hist active w)) in
  (title ∉ conv_title <$> convs ->
   load_conversation_by_title title convs' = (hist', Some (uuid4 env)))
  /\ (forall t, t ∈ conv_title <$> convs ->
                load_conversation_by_title t convs'
                = load_conversation_by_title t convs).
Proof.
  intros Hb Hnew convs hist' title convs'.
  assert (Hconvs : convs' = convs ++ [mkConv (uuid4 env) title hist']).
  { unfold convs'. rewrite (jd_reply_core_conversations env _ _ _ _ _ Hb).
    fold convs hist'. rewrite (record_update_create _ _ _ _ Hnew). reflexivity. }
  rewrite Hconvs. unfold load_conversation_by_title. split.
  - intros Hfresh.
    pose proof (extract_title_nonempty hist') as Hne. fold title in Hne.
    destruct title as [|c title'] eqn:Ht; [congruence|]. cbn [is_empty].
    rewrite (find_title_app_r _ _ _ Hfresh). cbn [find_title conv_title].
    case_decide; [reflexivity | congruence].
  - intros t Hin. destruct (is_empty t); [reflexivity|].
    apply find_title_app_l, Hin.
Qed.


Lemma all_memory_pairs_turns (c : Conversation) (convs : list Conversation)
    (t : turn) :
  c ∈ convs -> t ∈ conv_turns c ->
  mkPair (fst t) (snd t) ∈ all_memory_pairs convs.
Proof.
  intros Hc Ht. unfold all_memory_pairs.
  apply list_elem_of_In, in_flat_map. exists c.
  split; [apply list_elem_of_In, Hc|].
  apply list_elem_of_In, list_elem_of_fmap. exists t. auto.
Qed.

(** X11. The exchange enters the memory at once: after a call with a
    message that is not blank, the pair of the stripped message and the
    reply is among the memory pairs, and when the call created a
    conversation the memory pairs are the old ones followed by the pairs
    of the whole session, so a next message of the session finds the
    session both in the summary and in the session messages. *)
Theorem exchange_enters_memory msg speak hist active w :
  blank msg = false ->
  let convs := conversations w in
  let hist' := session_after env convs hist msg in
  let convs' := conversations (snd (jd_reply_core env msg speak hist active w)) in
  mkPair (strip msg) (reply_text env convs hist msg) ∈ all_memory_pairs convs'
  /\ (active = None
      \/ (exists cid, active = Some cid /\ cid ∉ conv_id <$> convs) ->
      all_memory_pairs convs'
      = all_memory_pairs convs
        ++ ((fun t => mkPair (fst t) (snd t)) <$> hist')).
Proof.
  intros Hb convs hist' convs'.
  assert (Hconvs : convs' = (record_update env active hist' convs).2)
    by apply (jd_reply_core_conversations env _ _ _ _ _ Hb).
  split.
  - destruct (record_update_filed env active hist' convs)
      as (c & Hin & _ & _ & Hturns).
    rewrite Hconvs.
    apply (all_memory_pairs_turns c _
             (strip msg, reply_text env convs hist msg) Hin).
    rewrite Hturns. unfold hist', session_after.
    apply elem_of_app. right. left.
  - intros Hnew. rewrite Hconvs, (record_update_create _ _ _ _ Hnew).
    cbn [snd]. rewrite all_memory_pairs_app. f_equal.
    rewrite all_memory_pairs_cons. apply app_nil_r.
Qed.

End Afterwards.

(** ** Event handlers *)

Lemma extract_title_app (history more : list turn) :
  history <> [] ->
  extract_title_from_history (history ++ more)
  = extract_title_from_history history.
Proof. destruct history; [congruence | reflexivity]. Qed.

Lemma update_conversation_last (cid : str) (history : list turn)
    (convs : list Conversation) (c : Conversation) :
  cid ∉ conv_id <$> convs ->
  conv_id c = cid ->
  update_conversation cid history (convs ++ [c])
  = Some (convs ++ [mkConv cid (extract_title_from_history history) history]).
Proof.
  intros Hfresh Hc. induction convs as [|c0 convs IH]; simpl.
  - rewrite Hc. case_decide; [reflexivity | congruence].
  - destruct (decide (conv_id c0 = cid)) as [Heq|Hne].
    + exfalso. apply Hfresh. rewrite <- Heq. left.
    + rewrite IH; [reflexivity|]. intros Hin. apply Hfresh. right. exact Hin.
Qed.

Lemma update_conversation_at (history : list turn)
    (convs : list Conversation) (i : nat) (c : Conversation) :
  NoDup (conv_id <$> convs) ->
  convs !! i = Some c ->
  update_conversation (conv_id c) history convs
  = Some (<[i := mkConv (conv_id c) (extract_title_from_history history)
                   history]> convs).
Proof.
  intros Hnd Hi.
  assert (Hin : conv_id c ∈ conv_id <$> convs).
  { apply list_elem_of_fmap. exists c. split; [reflexivity|].
    apply list_elem_of_lookup. exists i. exact Hi. }
  destruct (update_conversation_some (conv_id c) history convs Hin)
    as (j & c0 & Hj & Hc0 & _ & Hupd).
  assert (Hij : j = i).
  { apply (NoDup_lookup (conv_id <$> convs) j i (conv_id c) Hnd).
    - rewrite list_lookup_fmap, Hj. cbn. rewrite Hc0. reflexivity.
    - rewrite list_lookup_fmap, Hi. reflexivity. }
  rewrite Hupd, Hij. reflexivity.
Qed.

Section HandlerProps.
Context `{JsonLib}.
Variable env : Env.
Implicit Types (msg : str) (speak : bool) (history : option (list turn))
  (active : option str) (titles : list str) (w : World) (o : ui_outputs).

(** What [on_send] makes of the reply of [jd_reply_core]. *)
Lemma on_send_ok msg history speak active titles w o w' :
  on_send env msg history speak active titles w = (Ok o, w') ->
  exists r,
    jd_reply_core env msg speak (or_empty history) active w = (Ok r, w')
    /\ o = mkOutputs (reply_history r) []
             (mkAudio (reply_audio r) (has_audio (reply_audio r)))
             (reply_id r) (reply_titles r)
             (mkRadio (Some (reply_titles r)) (last (reply_titles r))).
Proof.
  unfold on_send, bind. intros Hrun.
  destruct (jd_reply_core env msg speak (or_empty history) active w)
    as [[[[[h a] i] t]|e] w1]; [|discriminate].
  unfold ret in Hrun. injection Hrun as <- <-.
  eexists. split; reflexivity.
Qed.

Lemma on_send_world msg history speak active titles w :
  snd (on_send env msg history speak active titles w)
  = snd (jd_reply_core env msg speak (or_empty history) active w).
Proof.
  unfold on_send, bind.
  destruct (jd_reply_core env msg speak (or_empty history) active w)
    as [[[[[h a] i] t]|e] w1]; reflexivity.
Qed.

(** What a returning call returns, blank message or not. *)
Lemma jd_reply_core_titles_returned msg speak hist active w r w' :
  jd_reply_core env msg speak hist active w = (Ok r, w') ->
  reply_titles r = conv_title <$> conversations w'.
Proof.
  intros Hrun. destruct (blank msg) eqn:Hb.
  - unfold jd_reply_core in Hrun. rewrite is_empty_strip, Hb in Hrun.
    unfold bind, get_conversations, ret in Hrun.
    injection Hrun as <- <-. reflexivity.
  - apply (jd_reply_core_returns env _ _ _ _ _ _ _ Hb Hrun).
Qed.

(** The audio a returning call returns. *)
Lemma jd_reply_core_audio msg speak hist active w r w' :
  jd_reply_core env msg speak hist active w = (Ok r, w') ->
  (speak = false \/ blank msg = true -> reply_audio r = None)
  /\ (forall a, reply_audio r = Some a ->
        a = ""%string
        \/ (a = AUDIO_FILE
            /\ exists audio,
                 gtts env (reply_text env (conversations w) hist msg) = Ok audio
                 /\ disk w' !! AUDIO_FILE = Some (Data audio))).
Proof.
  intros Hrun. destruct (blank msg) eqn:Hb.
  - unfold jd_reply_core in Hrun. rewrite is_empty_strip, Hb in Hrun.
    unfold bind, get_conversations, ret in Hrun.
    injection Hrun as <- <-. split; [reflexivity | discriminate].
  - destruct (jd_reply_core_ok_writable env _ _ _ _ _ _ _ Hb Hrun)
      as (Hconv & Hlog).
    destruct (jd_reply_core_ok env msg speak hist active w Hb Hconv Hlog)
      as (audio & w4 & Hrun' & Haudio).
    rewrite Hrun' in Hrun. injection Hrun as <- <-.
    unfold reply_audio. cbn [fst snd].
    destruct speak.
    + destruct Haudio as (a & Htts & ->). split.
      * intros [Hs|Hs]; discriminate.
      * intros a0 [= <-]. rewrite make_tts_run in Htts.
        destruct (is_empty (reply_text env (conversations w) hist msg));
          [injection Htts as <- <-; left; reflexivity|].
        destruct (gtts env (reply_text env (conversations w) hist msg))
          as [sound|e]; [|injection Htts as <- <-; left; reflexivity].
        match type of Htts with
        | context [disk ?w3 !! AUDIO_FILE] =>
            destruct (disk w3 !! AUDIO_FILE) as [[old|e]|]
        end; injection Htts as <- <-;
          try (left; reflexivity);
          right; (split; [reflexivity|]); exists sound;
          (split; [reflexivity | apply lookup_insert_eq]).
    + destruct Haudio as (-> & _). split; [reflexivity | discriminate].
Qed.

(** X12. After every send that returns, the topic radio lists the
    titles of the snapshot and has the last of them selected, whichever
    conversation the message went to and also when the message was
    blank; the text box is cleared. When the send created a
    conversation, the selected title is the title of that conversation,
    derived from the chat now shown. *)
Theorem on_send_selects_last_title msg history speak active titles w o w' :
  on_send env msg history speak active titles w = (Ok o, w') ->
  out_txt o = []
  /\ out_titles o = conv_title <$> conversations w'
  /\ radio_choices (out_radio o) = Some (conv_title <$> conversations w')
  /\ radio_value (out_radio o) = last (conv_title <$> conversations w')
  /\ (blank msg = false ->
      active = None
      \/ (exists cid, active = Some cid /\ cid ∉ conv_id <$> conversations w) ->
      radio_value (out_radio o)
      = Some (extract_title_from_history (out_chat o))).
Proof.
  intros Hsend. destruct (on_send_ok _ _ _ _ _ _ _ _ Hsend) as (r & Hrun & ->).
  cbn [out_txt out_titles out_radio radio_choices radio_value out_chat].
  rewrite (jd_reply_core_titles_returned _ _ _ _ _ _ _ Hrun).
  split; [reflexivity|]. split; [reflexivity|]. split; [reflexivity|].
  split; [reflexivity|]. intros Hb Hnew.
  destruct (jd_reply_core_returns env _ _ _ _ _ _ _ Hb Hrun) as (-> & _ & _).
  pose proof (jd_reply_core_conversations env msg speak (or_empty history)
                active w Hb) as Hconvs.
  rewrite Hrun in Hconvs. cbn [snd] in Hconvs.
  rewrite Hconvs, (record_update_create _ _ _ _ Hnew). cbn [snd].
  rewrite fmap_app, fmap_cons, fmap_nil, last_snoc. reflexivity.
Qed.

(** X13. The audio player is shown, with the audio file as its value,
    exactly when the synthesis wrote that file for the reply of this
    call; it is hidden after a send without voice, a blank message, an
    empty reply, a failed synthesis or an audio file that cannot be
    written. *)
Theorem on_send_audio msg history speak active titles w o w' :
  on_send env msg history speak active titles w = (Ok o, w') ->
  (speak = false \/ blank msg = true -> out_audio o = mkAudio None false)
  /\ (audio_visible (out_audio o) = true
      <-> audio_value (out_audio o) = Some AUDIO_FILE)
  /\ (audio_visible (out_audio o) = true ->
      exists audio,
        gtts env (reply_text env (conversations w) (or_empty history) msg)
        = Ok audio
        /\ disk w' !! AUDIO_FILE = Some (Data audio)).
Proof.
  intros Hsend. destruct (on_send_ok _ _ _ _ _ _ _ _ Hsend) as (r & Hrun & ->).
  cbn [out_audio audio_visible audio_value].
  destruct (jd_reply_core_audio _ _ _ _ _ _ _ Hrun) as (Hnone & Hsome).
  split; [intros Hq; rewrite (Hnone Hq); reflexivity|].
  destruct (reply_audio r) as [a|] eqn:Ha.
  - destruct (Hsome a eq_refl) as [-> | (-> & audio & Hg & Hd)].
    + split; [split; discriminate | discriminate].
    + split; [split; reflexivity|]. intros _. exists audio. auto.
  - split; [split; discriminate | discriminate].
Qed.

(** X14. The prompt to edit and the answer to copy, taken from the chat
    a returning send shows for a message that was not blank, are the
    stripped message and the reply of that send. *)
Theorem last_turn_after_send msg history speak active titles w o w' :
  blank msg = false ->
  on_send env msg history speak active titles w = (Ok o, w') ->
  edit_last_prompt (Some (out_chat o)) = strip msg
  /\ copy_last_answer (Some (out_chat o))
     = reply_text env (conversations w) (or_empty history) msg.
Proof.
  intros Hb Hsend.
  destruct (on_send_ok _ _ _ _ _ _ _ _ Hsend) as (r & Hrun & ->).
  destruct (jd_reply_core_returns env _ _ _ _ _ _ _ Hb Hrun) as (Hh & _ & _).
  cbn [out_chat]. rewrite Hh.
  unfold edit_last_prompt, copy_last_answer, session_after.
  change (or_empty (Some ?l)) with l.
  rewrite last_snoc. split; reflexivity.
Qed.

(** X15. A new chat followed by a message that is not blank creates a
    conversation of one turn at the end of the snapshot and leaves every
    stored conversation as it is, whichever conversation was active
    before. *)
Theorem new_chat_then_send msg speak active titles w :
  blank msg = false ->
  let fresh := on_new_chat active titles in
  let answer := reply_text env (conversations w) [] msg in
  conversations
    (snd (on_send env msg (Some (out_chat fresh)) speak (out_conv_id fresh)
            (out_titles fresh) w))
  = conversations w
    ++ [mkConv (uuid4 env)
          (extract_title_from_history [(strip msg, answer)])
          [(strip msg, answer)]].
Proof.
  intros Hb fresh answer. rewrite on_send_world.
  cbn [fresh on_new_chat out_chat out_conv_id or_empty default].
  rewrite (jd_reply_core_conversations env _ _ _ _ _ Hb).
  rewrite record_update_create by (left; reflexivity). reflexivity.
Qed.

End HandlerProps.

(** X16. Two messages of one session make one conversation: when a
    first send without active conversation returns, with an id [uuid4]
    handed out that no stored conversation has, and a second send goes
    out with the chat and the id the first one returned, the snapshot is
    the old one followed by a single conversation with that id, whose
    turns are the chat after the second send and whose title is still
    the one derived after the first. *)
Theorem session_of_two_messages `{JsonLib} (env1 env2 : Env) (m1 m2 : str)
    (history : option (list turn)) (speak1 speak2 : bool)
    (titles1 titles2 : list str) (w w1 w2 : World) (o1 o2 : ui_outputs) :
  blank m1 = false ->
  blank m2 = false ->
  uuid4 env1 ∉ conv_id <$> conversations w ->
  on_send env1 m1 history speak1 None titles1 w = (Ok o1, w1) ->
  on_send env2 m2 (Some (out_chat o1)) speak2 (out_conv_id o1) titles2 w1
  = (Ok o2, w2) ->
  conversations w2
  = conversations w
    ++ [mkConv (uuid4 env1) (extract_title_from_history (out_chat o1))
          (out_chat o2)]
  /\ out_conv_id o2 = Some (uuid4 env1)
  /\ out_chat o2
     = or_empty history
       ++ [(strip m1, reply_text env1 (conversations w) (or_empty history) m1);
           (strip m2, reply_text env2 (conversations w1) (out_chat o1) m2)].
Proof.
  intros Hb1 Hb2 Hfresh Hsend1 Hsend2.
  destruct (on_send_ok _ _ _ _ _ _ _ _ _ Hsend1) as (r1 & Hrun1 & ->).
  cbn [out_chat out_conv_id] in *.
  destruct (jd_reply_core_returns env1 _ _ _ _ _ _ _ Hb1 Hrun1)
    as (Hh1 & Hid1 & _).
  pose proof (jd_reply_core_conversations env1 m1 speak1 (or_empty history)
                None w Hb1) as Hc1.
  rewrite Hrun1 in Hc1. cbn [snd] in Hc1.
  rewrite record_update_create in Hc1, Hid1 by (left; reflexivity).
  cbn [fst snd] in Hc1, Hid1. rewrite Hid1 in Hsend2.
  destruct (on_send_ok _ _ _ _ _ _ _ _ _ Hsend2) as (r2 & Hrun2 & ->).
  cbn [out_chat out_conv_id] in *.
  change (or_empty (Some (reply_history r1))) with (reply_history r1) in Hrun2.
  destruct (jd_reply_core_returns env2 _ _ _ _ _ _ _ Hb2 Hrun2)
    as (Hh2 & Hid2 & _).
  pose proof (jd_reply_core_conversations env2 m2 speak2 (reply_history r1)
                (Some (uuid4 env1)) w1 Hb2) as Hc2.
  rewrite Hrun2 in Hc2. cbn [snd] in Hc2.
  assert (Hupd : record_update env2 (Some (uuid4 env1))
                   (session_after env2 (conversations w1) (reply_history r1) m2)
                   (conversations w1)
                 = (uuid4 env1,
                    conversations w
                    ++ [mkConv (uuid4 env1)
                          (extract_title_from_history
                             (session_after env2 (conversations w1)
                                (reply_history r1) m2))
                          (session_after env2 (conversations w1)
                             (reply_history r1) m2)])).
  { set (h2 := session_after env2 (conversations w1) (reply_history r1) m2).
    unfold record_update. rewrite Hc1.
    erewrite update_conversation_last; [reflexivity | exact Hfresh | reflexivity]. }
  rewrite Hupd in Hc2, Hid2. cbn [fst snd] in Hc2, Hid2.
  split; [|split; [exact Hid2|]].
  - rewrite Hc2, Hh2. do 3 f_equal.
    unfold session_after at 1. apply extract_title_app.
    rewrite Hh1. unfold session_after. destruct (or_empty history); discriminate.
  - rewrite Hh2. unfold session_after at 1. rewrite Hh1 at 1.
    unfold session_after at 1. rewrite <- app_assoc. reflexivity.
Qed.

Section ShortTopics.
Context `{JsonLib}.
Variable env : Env.

(** X17. Selecting the title of a conversation of at most 5 turns
    installs all its turns and its id; with pairwise distinct ids, a
    message sent next, which is not blank, leaves that conversation with
    all its turns followed by the new pair, and the others as they
    are. *)
Theorem on_select_topic_short (title : str) (convs : list Conversation)
    (i : nat) (c : Conversation) :
  title <> [] ->
  convs !! i = Some c ->
  conv_title c = title ->
  (forall j c', (j < i)%nat -> convs !! j = Some c' -> conv_title c' <> title) ->
  (length (conv_turns c) <= 5)%nat ->
  let selected := on_select_topic title convs in
  selected = (conv_turns c, Some (conv_id c))
  /\ forall msg speak w,
       conversations w = convs ->
       NoDup (conv_id <$> convs) ->
       blank msg = false ->
       let hist' := session_after env convs (conv_turns c) msg in
       conversations (snd (jd_reply_core env msg speak selected.1 selected.2 w))
       = <[i := mkConv (conv_id c) (extract_title_from_history hist') hist']>
           convs
       /\ hist' = conv_turns c
                  ++ [(strip msg, reply_text env convs (conv_turns c) msg)].
Proof.
  intros Hne Hi Ht Hfirst Hshort selected.
  assert (Hsel : selected = (conv_turns c, Some (conv_id c))).
  { unfold selected. rewrite on_select_topic_run.
    unfold load_conversation_by_title.
    destruct title; [congruence|]. cbn [is_empty].
    rewrite (find_title_first _ convs i c Hi Ht Hfirst). cbn [fst snd].
    rewrite last_n_short by exact Hshort. reflexivity. }
  split; [exact Hsel|]. rewrite Hsel. cbn [fst snd].
  intros msg speak w Hw Hnd Hb. split; [|reflexivity].
  rewrite (jd_reply_core_conversations env _ _ _ _ _ Hb), Hw.
  unfold record_update.
  rewrite (update_conversation_at _ convs i c Hnd Hi). reflexivity.
Qed.

End ShortTopics.

(** ** The further properties on concrete runs *)


Lemma store_failure_leaves_disk_witness :
  exists w',
    jd_reply_core (H := PyJson.lib) greeter (lit "Hi") true [] None store_locked
    = (Raise permission_denied, w')
    /\ disk w' = disk store_locked
    /\ conversations w'
       = two_topics ++ [mkConv (lit "id-1") (lit "Hi") [(lit "Hi", lit "Hello!")]].
Proof.
  destruct (store_failure_leaves_disk (H := PyJson.lib) greeter (lit "Hi") true
              [] None store_locked permission_denied eq_refl)
    as (w' & Hrun & Hdisk & Hconvs & _).
  - apply lookup_singleton_eq.
  - exists w'. split; [exact Hrun|]. split; [exact Hdisk | exact Hconvs].
Defined.

Lemma jd_reply_core_touches_three_paths_witness :
  disk (snd (jd_reply_core (H := PyJson.lib) greeter (lit "Hi") true [] None
               notes_world)) !! "notes.txt"%string
  = Some (Data (lit "keep")).
Proof.
  rewrite (jd_reply_core_touches_three_paths (H := PyJson.lib) greeter
             (lit "Hi") true [] None notes_world "notes.txt"%string).
  - apply lookup_singleton_eq.
  - intros Heq. vm_compute in Heq. discriminate.
  - intros Heq. vm_compute in Heq. discriminate.
  - left. intros Heq. vm_compute in Heq. discriminate.
Defined.

Lemma lookup_after_create_witness :
  load_conversation_by_title (lit "Hi")
    (conversations
       (snd (jd_reply_core (H := PyJson.lib) greeter (lit "Hi") false [] None
               world_two)))
  = ([(lit "Hi", lit "Hello!")], Some (lit "id-1"))
  /\ load_conversation_by_title (lit "Hi there")
       (conversations
          (snd (jd_reply_core (H := PyJson.lib) greeter (lit "Hi there") false
                  [] None world_two)))
     = load_conversation_by_title (lit "Hi there") two_topics.
Proof.
  split.
  - apply (proj1 (lookup_after_create (H := PyJson.lib) greeter (lit "Hi") false
                    [] None world_two eq_refl (or_introl eq_refl))).
    intros Hin. apply elem_of_cons in Hin as [Heq|Hin]; [discriminate|].
    apply list_elem_of_singleton in Hin. discriminate.
  - apply (proj2 (lookup_after_create (H := PyJson.lib) greeter (lit "Hi there")
                    false [] None world_two eq_refl (or_introl eq_refl))).
    left.
Defined.


Lemma exchange_enters_memory_witness :
  mkPair (lit "more") (lit "Hello!")
  ∈ all_memory_pairs
      (conversations
         (snd (jd_reply_core (H := PyJson.lib) greeter (lit " more ") false
                 [(lit "Hi there", lit "Hello!")] (Some (lit "3f2a"))
                 world_two))).
Proof.
  apply (proj1 (exchange_enters_memory (H := PyJson.lib) greeter (lit " more ")
                  false [(lit "Hi there", lit "Hello!")] (Some (lit "3f2a"))
                  world_two eq_refl)).
Defined.

Lemma on_send_selects_last_title_witness :
  exists o w',
    on_send (H := PyJson.lib) greeter (lit "Hi") None false None [] world_two
    = (Ok o, w')
    /\ radio_value (out_radio o) = Some (extract_title_from_history (out_chat o))
    /\ radio_choices (out_radio o) = Some (conv_title <$> conversations w').
Proof.
  destruct (on_send (H := PyJson.lib) greeter (lit "Hi") None false None []
              world_two) as [[o|e] w'] eqn:Hsend;
    [|vm_compute in Hsend; discriminate].
  exists o, w'. split; [reflexivity|].
  destruct (on_send_selects_last_title (H := PyJson.lib) greeter (lit "Hi") None
              false None [] world_two o w' Hsend)
    as (_ & _ & Hchoices & _ & Hcreate).
  split; [|exact Hchoices].
  apply Hcreate; [reflexivity | left; reflexivity].
Defined.

Lemma on_send_audio_witness :
  exists o w',
    on_send (H := PyJson.lib) offline (lit "Hi") None true None [] empty_world
    = (Ok o, w')
    /\ (audio_visible (out_audio o) = true
        <-> audio_value (out_audio o) = Some AUDIO_FILE).
Proof.
  destruct (on_send (H := PyJson.lib) offline (lit "Hi") None true None []
              empty_world) as [[o|e] w'] eqn:Hsend;
    [|vm_compute in Hsend; discriminate].
  exists o, w'. split; [reflexivity|].
  apply (on_send_audio (H := PyJson.lib) offline (lit "Hi") None true None []
           empty_world o w' Hsend).
Defined.

Lemma last_turn_after_send_witness :
  exists o w',
    on_send (H := PyJson.lib) greeter (lit " Hi ") None false None []
      empty_world = (Ok o, w')
    /\ edit_last_prompt (Some (out_chat o)) = lit "Hi"
    /\ copy_last_answer (Some (out_chat o)) = lit "Hello!".
Proof.
  destruct (on_send (H := PyJson.lib) greeter (lit " Hi ") None false None []
              empty_world) as [[o|e] w'] eqn:Hsend;
    [|vm_compute in Hsend; discriminate].
  exists o, w'. split; [reflexivity|].
  apply (last_turn_after_send (H := PyJson.lib) greeter (lit " Hi ") None false
           None [] empty_world o w' eq_refl Hsend).
Defined.

Lemma new_chat_then_send_witness :
  conversations
    (snd (on_send (H := PyJson.lib) greeter (lit "Hi")
            (Some (out_chat (on_new_chat (Some (lit "3f2a")) [])))
            false (out_conv_id (on_new_chat (Some (lit "3f2a")) []))
            (out_titles (on_new_chat (Some (lit "3f2a")) [])) world_two))
  = two_topics ++ [mkConv (lit "id-1") (lit "Hi") [(lit "Hi", lit "Hello!")]].
Proof.
  apply (new_chat_then_send (H := PyJson.lib) greeter (lit "Hi") false
           (Some (lit "3f2a")) [] world_two eq_refl).
Defined.

Lemma session_of_two_messages_witness :
  exists o1 w1 o2 w2,
    on_send (H := PyJson.lib) greeter (lit "Hi") None false None [] world_two
    = (Ok o1, w1)
    /\ on_send (H := PyJson.lib) greeter_again (lit "more") (Some (out_chat o1))
         false (out_conv_id o1) [] w1 = (Ok o2, w2)
    /\ conversations w2
       = two_topics
         ++ [mkConv (lit "id-1") (extract_title_from_history (out_chat o1))
               (out_chat o2)]
    /\ out_conv_id o2 = Some (lit "id-1").
Proof.
  destruct (on_send (H := PyJson.lib) greeter (lit "Hi") None false None []
              world_two) as [[o1|e] w1] eqn:Hsend1;
    [|vm_compute in Hsend1; discriminate].
  pose proof Hsend1 as Hvalue. vm_compute in Hvalue.
  injection Hvalue as <- <-.
  match type of Hsend1 with
  | _ = (Ok ?o, ?w) =>
      destruct (on_send (H := PyJson.lib) greeter_again (lit "more")
                  (Some (out_chat o)) false (out_conv_id o) [] w)
        as [[o2|e] w2] eqn:Hsend2;
      [|vm_compute in Hsend2; discriminate];
      destruct (session_of_two_messages (H := PyJson.lib) greeter greeter_again
                  (lit "Hi") (lit "more") None false false [] [] world_two
                  w w2 o o2 eq_refl eq_refl) as (Hconvs & Hid & _);
      [ intros Hin; apply elem_of_cons in Hin as [Heq|Hin]; [discriminate|];
        apply list_elem_of_singleton in Hin; discriminate
      | exact Hsend1 | exact Hsend2 |];
      exists o, w, o2, w2;
      (split; [reflexivity|]); (split; [exact Hsend2|]);
      (split; [exact Hconvs | exact Hid])
  end.
Defined.

Lemma on_select_topic_short_witness :
  on_select_topic (lit "Hi there") two_topics
  = ([(lit "Hi there", lit "Hello!"); (lit "more", [34; 92; 10; 233; 8230])],
     Some (lit "3f2a"))
  /\ conversations
       (snd (jd_reply_core (H := PyJson.lib) greeter (lit "again") false
               (on_select_topic (lit "Hi there") two_topics).1
               (on_select_topic (lit "Hi there") two_topics).2 world_two))
     = [ mkConv (lit "3f2a") (lit "Hi there")
           [(lit "Hi there", lit "Hello!"); (lit "more", [34; 92; 10; 233; 8230]);
            (lit "again", lit "Hello!")];
         mkConv (lit "77b0") (lit "New chat") [] ].
Proof.
  destruct (on_select_topic_short (H := PyJson.lib) greeter (lit "Hi there")
              two_topics 0
              (mkConv (lit "3f2a") (lit "Hi there")
                 [(lit "Hi there", lit "Hello!");
                  (lit "more", [34; 92; 10; 233; 8230])]))
    as (Hsel & Hnext).
  - discriminate.
  - reflexivity.
  - reflexivity.
  - intros j c' Hj. lia.
  - simpl. lia.
  - split; [exact Hsel|].
    apply (Hnext (lit "again") false world_two eq_refl); [|reflexivity].
    apply NoDup_cons. split; [|apply NoDup_singleton].
    intros Hin. apply list_elem_of_singleton in Hin. discriminate.
Defined.

